(** * Modal manager (assets/modal.js): gating, lifecycle and storage

    A shallow embedding of the [ModalManager] class of [assets/modal.js]
    and of the global [window.ModalManager] facade.  The browser is the
    host: its clock, viewport, the two [Storage] objects and the timer
    queue are explicit components of the state, and a method becomes a
    function from an environment reading ([Env]) and a [State] to a
    [State].

    Not modelled: the DOM presentation of a modal (style, classes, focus,
    ARIA attributes and the 300ms timer that only hides the element),
    console logging, and the optional [gtag] analytics call; none of them
    is read back by the code.  The handlers of user input (close button,
    backdrop, Escape, form submit, scroll, click, mouse-out) and the
    read-only commands [getStatus], [listModals] and [hideAll] are left
    out: the properties below are about the methods these end in. *)

From Stdlib Require Import ZArith QArith Qround Lia Ascii String.
From stdpp Require Import gmap strings list.

Local Open Scope string_scope.
Local Open Scope Z_scope.

(** ** JavaScript primitives used by the source *)

Module JS.

Definition code (c : ascii) : Z := Z.of_nat (nat_of_ascii c).

(** ASCII members of [StrWhiteSpaceChar] (TAB, LF, VT, FF, CR, SP);
    strings are modelled as 8-bit character strings. *)
Definition isWhiteSpace (c : ascii) : bool :=
  ((9 <=? code c) && (code c <=? 13)) || (code c =? 32).

Fixpoint trimStart (s : string) : string :=
  match s with
  | String c s' => if isWhiteSpace c then trimStart s' else s
  | EmptyString => s
  end.

(** Value of [c] as a digit of the given radix (10 or 16), if it is one. *)
Definition digitValue (radix : Z) (c : ascii) : option Z :=
  let n := code c in
  let v :=
    if (48 <=? n) && (n <=? 57) then Some (n - 48)
    else if (97 <=? n) && (n <=? 122) then Some (n - 87)
    else if (65 <=? n) && (n <=? 90) then Some (n - 55)
    else None in
  match v with
  | Some d => if d <? radix then Some d else None
  | None => None
  end.

(** Reads the longest prefix of radix digits, most significant first. *)
Fixpoint parseDigits (radix acc : Z) (s : string) : Z :=
  match s with
  | String c s' =>
      match digitValue radix c with
      | Some d => parseDigits radix (acc * radix + d) s'
      | None => acc
      end
  | EmptyString => acc
  end.

Definition startsWithDigit (radix : Z) (s : string) : bool :=
  match s with
  | String c _ => bool_decide (is_Some (digitValue radix c))
  | EmptyString => false
  end.

(** The digits of [parseInt] after the sign: an [0x]/[0X] prefix selects
    radix 16; no digit at all gives [NaN] ([None]). *)
Definition parseMagnitude (s2 : string) : option Z :=
  let '(radix, s3) :=
    match s2 with
    | String "0"%char (String "x"%char r) => (16, r)
    | String "0"%char (String "X"%char r) => (16, r)
    | _ => (10, s2)
    end in
  if startsWithDigit radix s3 then Some (parseDigits radix 0 s3) else None.

(** [parseInt(s)] with no radix argument: leading white space, an
    optional sign, then the magnitude.  Integers are exact (the source
    only parses time stamps and week numbers, far below 2^53). *)
Definition parseInt (s : string) : option Z :=
  let s1 := trimStart s in
  let '(sign, s2) :=
    match s1 with
    | String "-"%char r => (-1, r)
    | String "+"%char r => (1, r)
    | _ => (1, s1)
    end in
  match parseMagnitude s2 with
  | Some m => Some (sign * m)
  | None => None
  end.

(** [parseInt(v) || 0] where [v] is the result of [getItem]: a missing
    item is [null], which parses as [NaN]; [NaN] and [0] are falsy. *)
Definition parseIntOr0 (v : option string) : Z :=
  match v with
  | Some s => match parseInt s with Some n => n | None => 0 end
  | None => 0
  end.

Definition digitChar (d : Z) : ascii := ascii_of_nat (Z.to_nat (48 + d)).

(** Decimal digits of [n >= 0] pushed in front of [acc]; the fuel bounds
    the number of digits. *)
Fixpoint digitsOf (fuel : nat) (n : Z) (acc : string) : string :=
  match fuel with
  | O => acc
  | S f =>
      let acc' := String (digitChar (n mod 10)) acc in
      if n / 10 =? 0 then acc' else digitsOf f (n / 10) acc'
  end.

(** [Number.prototype.toString()] on an integer (below 1e21, where the
    decimal digits are printed in full). *)
Definition numberToString (z : Z) : string :=
  if z <? 0 then String "-"%char (digitsOf (S (Z.to_nat (Z.log2 (- z)))) (- z) "")
  else digitsOf (S (Z.to_nat (Z.log2 z))) z "".

(** [s.startsWith(p)] *)
Fixpoint startsWith (p s : string) : bool :=
  match p, s with
  | EmptyString, _ => true
  | String a p', String b s' => if decide (a = b) then startsWith p' s' else false
  | String _ _, EmptyString => false
  end.

(** Truthiness of a possibly-null string: [null] and [""] are falsy. *)
Definition truthy (v : option string) : bool :=
  match v with
  | Some EmptyString => false
  | Some _ => true
  | None => false
  end.

(** [Math.ceil(a / b)] for integers [a] and [b > 0].  The source divides
    a difference of time values by the milliseconds of a week: a quotient
    that is not an integer is at least 1/604800000 away from one, far more
    than the rounding of the division, so the result is the exact
    ceiling. *)
Definition Math_ceil_div (a b : Z) : Z := - ((- a) / b).

End JS.

(** ** The Web Storage objects *)

Module Storage.

(** A [Storage] object: its items in key order, as [key(i)] enumerates
    them.  A new key goes to the end, a removed item closes the gap. *)
Definition t := list (string * string).

Fixpoint getItem (s : t) (k : string) : option string :=
  match s with
  | (k', v) :: s' => if decide (k' = k) then Some v else getItem s' k
  | [] => None
  end.

Fixpoint setItem (s : t) (k v : string) : t :=
  match s with
  | (k', v') :: s' =>
      if decide (k' = k) then (k, v) :: s' else (k', v') :: setItem s' k v
  | [] => [(k, v)]
  end.

Fixpoint removeItem (s : t) (k : string) : t :=
  match s with
  | (k', v') :: s' =>
      if decide (k' = k) then removeItem s' k else (k', v') :: removeItem s' k
  | [] => []
  end.

Definition key (s : t) (i : nat) : option string := fst <$> s !! i.

End Storage.

(** ** The host clock and calendar

    Time values are milliseconds since the epoch, as [Date.now()] returns
    them.  The calendar follows the definitions of the language standard
    ([Day], [DayFromYear], [YearFromTime], ...).  The local time zone is a
    constant offset [LocalTZA]; daylight saving changes are not modelled. *)

Module JSDate.

Definition msPerDay : Z := 86400000.

Definition Day (t : Z) : Z := t / msPerDay.

Definition DayFromYear (y : Z) : Z :=
  365 * (y - 1970) + (y - 1969) / 4 - (y - 1901) / 100 + (y - 1601) / 400.

Definition TimeFromYear (y : Z) : Z := msPerDay * DayFromYear y.

(** The largest [y] with [DayFromYear y <= d]: an estimate from the mean
    year length, corrected by at most one. *)
Definition YearFromDay (d : Z) : Z :=
  let y0 := 1970 + (d * 400) / 146097 in
  if DayFromYear (y0 + 1) <=? d then y0 + 1
  else if DayFromYear y0 <=? d then y0
  else y0 - 1.

Definition YearFromTime (t : Z) : Z := YearFromDay (Day t).

Definition DaysInYear (y : Z) : Z :=
  if negb (y mod 4 =? 0) then 365
  else if negb (y mod 100 =? 0) then 366
  else if negb (y mod 400 =? 0) then 365
  else 366.

Definition InLeapYear (t : Z) : Z :=
  if DaysInYear (YearFromTime t) =? 366 then 1 else 0.

Definition DayWithinYear (t : Z) : Z := Day t - DayFromYear (YearFromTime t).

Definition MonthFromTime (t : Z) : Z :=
  let d := DayWithinYear t in
  let l := InLeapYear t in
  if d <? 31 then 0
  else if d <? 59 + l then 1
  else if d <? 90 + l then 2
  else if d <? 120 + l then 3
  else if d <? 151 + l then 4
  else if d <? 181 + l then 5
  else if d <? 212 + l then 6
  else if d <? 243 + l then 7
  else if d <? 273 + l then 8
  else if d <? 304 + l then 9
  else if d <? 334 + l then 10
  else 11.

Definition DateFromTime (t : Z) : Z :=
  let d := DayWithinYear t in
  let l := InLeapYear t in
  match MonthFromTime t with
  | 0 => d + 1
  | 1 => d - 30
  | 2 => d - 58 - l
  | 3 => d - 89 - l
  | 4 => d - 119 - l
  | 5 => d - 150 - l
  | 6 => d - 180 - l
  | 7 => d - 211 - l
  | 8 => d - 242 - l
  | 9 => d - 272 - l
  | 10 => d - 303 - l
  | _ => d - 333 - l
  end.

Definition WeekDay (t : Z) : Z := (Day t + 4) mod 7.

Definition weekDayName (w : Z) : string :=
  match w with
  | 0 => "Sun" | 1 => "Mon" | 2 => "Tue" | 3 => "Wed"
  | 4 => "Thu" | 5 => "Fri" | _ => "Sat"
  end.

Definition monthName (m : Z) : string :=
  match m with
  | 0 => "Jan" | 1 => "Feb" | 2 => "Mar" | 3 => "Apr"
  | 4 => "May" | 5 => "Jun" | 6 => "Jul" | 7 => "Aug"
  | 8 => "Sep" | 9 => "Oct" | 10 => "Nov" | _ => "Dec"
  end.

(** [ToZeroPaddedDecimalString(n, minLength)] for [n >= 0]. *)
Definition zeroPad (n : Z) (minLength : nat) : string :=
  let s := JS.numberToString n in
  String.concat "" (replicate (minLength - String.length s) "0") +:+ s.

(** [DateString(tv)] of a local time value: ["Www Mmm dd yyyy"]. *)
Definition DateString (tv : Z) : string :=
  let yv := YearFromTime tv in
  weekDayName (WeekDay tv) +:+ " " +:+ monthName (MonthFromTime tv) +:+ " "
  +:+ zeroPad (DateFromTime tv) 2 +:+ " "
  +:+ (if yv <? 0 then "-" else "") +:+ zeroPad (Z.abs yv) 4.

Section LocalZone.
(** Offset of local time from UTC, in milliseconds. *)
Variable LocalTZA : Z.

Definition LocalTime (t : Z) : Z := t + LocalTZA.
Definition UTC (t : Z) : Z := t - LocalTZA.

(** [d.getFullYear()] *)
Definition getFullYear (t : Z) : Z := YearFromTime (LocalTime t).

(** [d.toDateString()] *)
Definition toDateString (t : Z) : string := DateString (LocalTime t).

(** Time value of [new Date(year, 0, 1)]: local midnight of 1 January.
    The constructor reads a year from 0 to 99 as 1900 + year. *)
Definition newDate_y_0_1 (year : Z) : Z :=
  let yr := if (0 <=? year) && (year <=? 99) then 1900 + year else year in
  UTC (TimeFromYear yr).
End LocalZone.

End JSDate.

(** ** Data model *)

(** What the host reports when a method runs: [Date.now()] (every clock
    read of one method call sees the same instant), the local zone offset
    and [window.innerWidth]. *)
Record Env := mkEnv {
  now : Z;
  LocalTZA : Z;
  innerWidth : Z
}.

Definition atTime (e : Env) (t : Z) : Env :=
  {| now := t; LocalTZA := LocalTZA e; innerWidth := innerWidth e |}.

(** The object built by [parseModalConfig]; [element] is the DOM node and
    carries no data of its own here. *)
Record Config := mkConfig {
  triggerType : string;
  triggerValue : string;
  frequency : string;
  delay : Z;
  mobileEnabled : bool;
  desktopEnabled : bool;
  closeOnOutsideClick : bool;
  autoCloseAfter : Z;
  devMode : bool;
  isShown : bool;
  lastShown : option Z
}.

Definition set_shown (b : bool) (t : option Z) (c : Config) : Config :=
  {| triggerType := triggerType c; triggerValue := triggerValue c;
     frequency := frequency c; delay := delay c;
     mobileEnabled := mobileEnabled c; desktopEnabled := desktopEnabled c;
     closeOnOutsideClick := closeOnOutsideClick c;
     autoCloseAfter := autoCloseAfter c; devMode := devMode c;
     isShown := b; lastShown := t |}.

Definition set_devMode (b : bool) (c : Config) : Config :=
  {| triggerType := triggerType c; triggerValue := triggerValue c;
     frequency := frequency c; delay := delay c;
     mobileEnabled := mobileEnabled c; desktopEnabled := desktopEnabled c;
     closeOnOutsideClick := closeOnOutsideClick c;
     autoCloseAfter := autoCloseAfter c; devMode := b;
     isShown := isShown c; lastShown := lastShown c |}.

(** The [data-modal-*] attributes of a modal element ([None]: absent). *)
Record Dataset := mkDataset {
  modalTriggerType : option string;
  modalTriggerValue : option string;
  modalFrequency : option string;
  modalDelay : option string;
  modalMobile : option string;
  modalDesktop : option string;
  modalCloseOutside : option string;
  modalAutoClose : option string;
  modalDevMode : option string
}.

(** [v || d] on a possibly-undefined string. *)
Definition orDefault (v : option string) (d : string) : string :=
  match v with
  | Some s => if JS.truthy v then s else d
  | None => d
  end.

Definition parseModalConfig (dataset : Dataset) : Config :=
  {| triggerType := orDefault (modalTriggerType dataset) "page-load";
     triggerValue := orDefault (modalTriggerValue dataset) "0";
     frequency := orDefault (modalFrequency dataset) "once-per-session";
     delay := JS.parseIntOr0 (modalDelay dataset);
     mobileEnabled := negb (bool_decide (modalMobile dataset = Some "false"));
     desktopEnabled := negb (bool_decide (modalDesktop dataset = Some "false"));
     closeOnOutsideClick :=
       negb (bool_decide (modalCloseOutside dataset = Some "false"));
     autoCloseAfter := JS.parseIntOr0 (modalAutoClose dataset);
     devMode := bool_decide (modalDevMode dataset = Some "true");
     isShown := false;
     lastShown := None |}.

(** Callbacks handed to [setTimeout].  The auto-close callback closes over
    the config object itself (a heap reference) and over the id. *)
Inductive Task :=
| TaskTrigger (modalId : string)
| TaskAutoClose (config : nat) (modalId : string).

(** Trigger listeners attached by [setupModalTrigger]. *)
Inductive Listener :=
| ScrollListener (modalId : string) (targetPercent delay : Z)
| ClickListener (modalId : string) (selector : string) (delay : Z)
| ExitListener (modalId : string) (delay : Z).

(** The manager and the page around it.  Config objects live in [heap]
    and are mutated in place; [modals] is the [Map] from id to object. *)
Record State := mkState {
  heap : list Config;
  modals : gmap string nat;
  session : Storage.t;
  local : Storage.t;
  bodyOverflow : string;
  events : list (string * string);
  timers : list (Z * Task);
  listeners : list Listener
}.

Definition set_heap (h : list Config) (st : State) : State :=
  {| heap := h; modals := modals st; session := session st; local := local st;
     bodyOverflow := bodyOverflow st; events := events st;
     timers := timers st; listeners := listeners st |}.

Definition set_modals (m : gmap string nat) (st : State) : State :=
  {| heap := heap st; modals := m; session := session st; local := local st;
     bodyOverflow := bodyOverflow st; events := events st;
     timers := timers st; listeners := listeners st |}.

Definition set_session (s : Storage.t) (st : State) : State :=
  {| heap := heap st; modals := modals st; session := s; local := local st;
     bodyOverflow := bodyOverflow st; events := events st;
     timers := timers st; listeners := listeners st |}.

Definition set_local (s : Storage.t) (st : State) : State :=
  {| heap := heap st; modals := modals st; session := session st; local := s;
     bodyOverflow := bodyOverflow st; events := events st;
     timers := timers st; listeners := listeners st |}.

Definition set_bodyOverflow (v : string) (st : State) : State :=
  {| heap := heap st; modals := modals st; session := session st;
     local := local st; bodyOverflow := v; events := events st;
     timers := timers st; listeners := listeners st |}.

Definition set_timers (ts : list (Z * Task)) (st : State) : State :=
  {| heap := heap st; modals := modals st; session := session st;
     local := local st; bodyOverflow := bodyOverflow st; events := events st;
     timers := ts; listeners := listeners st |}.

(** [document.dispatchEvent(new CustomEvent(eventName, {detail: {modalId, ...}}))] *)
Definition dispatchModalEvent (eventName modalId : string) (st : State) : State :=
  {| heap := heap st; modals := modals st; session := session st;
     local := local st; bodyOverflow := bodyOverflow st;
     events := events st ++ [(eventName, modalId)];
     timers := timers st; listeners := listeners st |}.

Definition addListener (l : Listener) (st : State) : State :=
  {| heap := heap st; modals := modals st; session := session st;
     local := local st; bodyOverflow := bodyOverflow st; events := events st;
     timers := timers st; listeners := listeners st ++ [l] |}.

(** [setTimeout(task, ms)]: a negative delay counts as zero. *)
Definition setTimeout (e : Env) (task : Task) (ms : Z) (st : State) : State :=
  set_timers (timers st ++ [(now e + Z.max 0 ms, task)]) st.

(** [this.modals.get(modalId)]: the reference and the object behind it. *)
Definition getConfig (st : State) (modalId : string) : option (nat * Config) :=
  match modals st !! modalId with
  | Some r => match heap st !! r with
              | Some c => Some (r, c)
              | None => None
              end
  | None => None
  end.

(** [this.storage.prefix] *)
Definition storage_prefix : string := "modal_".

(** The empty page: nothing registered, both stores as given. *)
Definition initState (sess loc : Storage.t) : State :=
  {| heap := []; modals := ∅; session := sess; local := loc;
     bodyOverflow := ""; events := []; timers := []; listeners := [] |}.

(** ** The manager's methods *)

(** [getWeekNumber()] *)
Definition getWeekNumber (e : Env) : Z :=
  let start := JSDate.newDate_y_0_1 (LocalTZA e) (JSDate.getFullYear (LocalTZA e) (now e)) in
  let diff := now e - start in
  JS.Math_ceil_div diff (7 * 24 * 60 * 60 * 1000).

(** [new Date().toDateString()] *)
Definition todayKey (e : Env) : string := JSDate.toDateString (LocalTZA e) (now e).

Definition isDeviceCompatible (e : Env) (config : Config) : bool :=
  let isMobile := innerWidth e <=? 768 in
  if isMobile then mobileEnabled config else desktopEnabled config.

Definition canShowModal (e : Env) (st : State) (modalId frequency : string) : bool :=
  match getConfig st modalId with
  | Some (_, {| devMode := true |}) => true
  | _ =>
      let key := storage_prefix +:+ modalId in
      if decide (frequency = "always") then true
      else if decide (frequency = "once-per-session") then
        negb (JS.truthy (Storage.getItem (session st) (key +:+ "_session")))
      else if decide (frequency = "once-per-day") then
        let lastDay := Storage.getItem (local st) (key +:+ "_day") in
        negb (bool_decide (lastDay = Some (todayKey e)))
      else if decide (frequency = "once-per-week") then
        let lastWeek := JS.parseIntOr0 (Storage.getItem (local st) (key +:+ "_week")) in
        let thisWeek := getWeekNumber e in
        negb (lastWeek =? thisWeek)
      else true
  end.

Definition trackModalDisplay (e : Env) (st : State) (modalId frequency : string) : State :=
  match getConfig st modalId with
  | Some (_, {| devMode := true |}) => st
  | _ =>
      let key := storage_prefix +:+ modalId in
      if decide (frequency = "once-per-session") then
        set_session (Storage.setItem (session st) (key +:+ "_session")
                       (JS.numberToString (now e))) st
      else if decide (frequency = "once-per-day") then
        set_local (Storage.setItem (local st) (key +:+ "_day") (todayKey e)) st
      else if decide (frequency = "once-per-week") then
        set_local (Storage.setItem (local st) (key +:+ "_week")
                     (JS.numberToString (getWeekNumber e))) st
      else st
  end.

Definition showModal (e : Env) (st : State) (modalId : string) : State :=
  match getConfig st modalId with
  | None => st
  | Some (r, config) =>
      let st1 := set_heap (<[r := set_shown true (Some (now e)) config]> (heap st)) st in
      let st2 := trackModalDisplay e st1 modalId (frequency config) in
      let st3 := set_bodyOverflow "hidden" st2 in
      dispatchModalEvent "modal:shown" modalId st3
  end.

Definition closeModal (st : State) (modalId : string) : State :=
  match getConfig st modalId with
  | None => st
  | Some (r, config) =>
      if negb (isShown config) then st
      else if devMode config then st
      else
        let st1 := set_heap (<[r := set_shown false (lastShown config) config]> (heap st)) st in
        let st2 := set_bodyOverflow "" st1 in
        dispatchModalEvent "modal:closed" modalId st2
  end.

Definition triggerModal (e : Env) (st : State) (modalId : string) : State :=
  match getConfig st modalId with
  | None => st
  | Some (_, config) =>
      if isShown config then st
      else if negb (canShowModal e st modalId (frequency config)) then st
      else showModal e st modalId
  end.

(** The body of the [for] loop of [cleanupOldData] at index [i]. *)
Definition cleanupStep (oneWeekAgo : Z) (s : Storage.t) (i : nat) : Storage.t :=
  match Storage.key s i with
  | Some key =>
      if JS.truthy (Some key) && JS.startsWith storage_prefix key then
        let value := Storage.getItem s key in
        match value with
        | Some v =>
            if JS.truthy value
               && match JS.parseInt v with Some n => n <? oneWeekAgo | None => false end
            then Storage.removeItem s key
            else s
        | None => s
        end
      else s
  | None => s
  end.

(** [for (let i = 0; i < session.length; i++) ...]: the length is read
    again at every test.  [None] when the fuel runs out before the loop
    test fails. *)
Fixpoint cleanupLoop (fuel : nat) (oneWeekAgo : Z) (i : nat) (s : Storage.t)
  : option Storage.t :=
  if decide (i < length s)%nat then
    match fuel with
    | O => None
    | S f => cleanupLoop f oneWeekAgo (S i) (cleanupStep oneWeekAgo s i)
    end
  else Some s.

Definition cleanupSession (e : Env) (s : Storage.t) : option Storage.t :=
  let oneWeekAgo := now e - (7 * 24 * 60 * 60 * 1000) in
  cleanupLoop (length s) oneWeekAgo 0 s.

Definition cleanupOldData (e : Env) (st : State) : option State :=
  s ← cleanupSession e (session st); Some (set_session s st).

Definition setupTimeTrigger (e : Env) (st : State) (modalId : string) (config : Config) : State :=
  let ms := match JS.parseInt (triggerValue config) with
            | Some n => n * 1000 + delay config * 1000
            | None => 0
            end in
  setTimeout e (TaskTrigger modalId) ms st.

Definition setupScrollTrigger (st : State) (modalId : string) (config : Config) : State :=
  let targetPercent :=
    match JS.parseInt (triggerValue config) with
    | Some 0 | None => 50
    | Some n => n
    end in
  addListener (ScrollListener modalId targetPercent (delay config)) st.

Definition setupClickTrigger (st : State) (modalId : string) (config : Config) : State :=
  let selector := triggerValue config in
  if negb (JS.truthy (Some selector)) then st
  else addListener (ClickListener modalId selector (delay config)) st.

Definition setupExitIntentTrigger (e : Env) (st : State) (modalId : string) (config : Config) : State :=
  if innerWidth e <=? 768 then st
  else addListener (ExitListener modalId (delay config)) st.

Definition setupPageLoadTrigger (e : Env) (st : State) (modalId : string) (config : Config) : State :=
  setTimeout e (TaskTrigger modalId) (delay config * 1000) st.

Definition setupModalTrigger (e : Env) (st : State) (modalId : string) (config : Config) : State :=
  let t := triggerType config in
  if decide (t = "time") then setupTimeTrigger e st modalId config
  else if decide (t = "scroll") then setupScrollTrigger st modalId config
  else if decide (t = "click") then setupClickTrigger st modalId config
  else if decide (t = "exit") then setupExitIntentTrigger e st modalId config
  else if decide (t = "page-load") then setupPageLoadTrigger e st modalId config
  else st.

(** The part of [setupModalEvents] that does not wait for user input: the
    auto-close timer.  (The close-button, backdrop, Escape and form
    handlers all end in [closeModal].) *)
Definition setupModalEvents (e : Env) (st : State) (modalId : string) : State :=
  match getConfig st modalId with
  | Some (r, config) =>
      if (0 <? autoCloseAfter config) && negb (devMode config) then
        setTimeout e (TaskAutoClose r modalId) (autoCloseAfter config * 1000) st
      else st
  | None => st
  end.

(** [registerModal(modalId, config, element)], where [element] is the node
    whose [data-modal-id] is [modalId] (the only call site).  The config
    object enters the heap when it is stored in the map. *)
Definition registerModal (e : Env) (st : State) (modalId : string) (config : Config) : State :=
  if negb (isDeviceCompatible e config) then st
  else if negb (canShowModal e st modalId (frequency config)) then st
  else
    let r := length (heap st) in
    let st1 := set_modals (<[modalId := r]> (modals st)) (set_heap (heap st ++ [config]) st) in
    let st2 := setupModalTrigger e st1 modalId config in
    setupModalEvents e st2 modalId.

(** Public API *)

Definition show (e : Env) (st : State) (modalId : string) : State :=
  showModal e st modalId.

Definition hide (st : State) (modalId : string) : State :=
  closeModal st modalId.

Definition resetFrequency (st : State) (modalId : string) : State :=
  let key := storage_prefix +:+ modalId in
  let st1 := set_session (Storage.removeItem (session st) (key +:+ "_session")) st in
  let st2 := set_local (Storage.removeItem (local st1) (key +:+ "_day")) st1 in
  set_local (Storage.removeItem (local st2) (key +:+ "_week")) st2.

(** [window.ModalManager.forceClose] *)
Definition forceClose (st : State) (modalId : string) : State :=
  match getConfig st modalId with
  | None => st
  | Some (r, config) =>
      if negb (isShown config) then st
      else
        let st1 := set_heap (<[r := set_shown false (lastShown config) config]> (heap st)) st in
        let st2 := set_bodyOverflow "" st1 in
        dispatchModalEvent "modal:closed" modalId st2
  end.

Definition enableDevMode (st : State) (modalId : string) : State :=
  match getConfig st modalId with
  | Some (r, config) => set_heap (<[r := set_devMode true config]> (heap st)) st
  | None => st
  end.

Definition disableDevMode (st : State) (modalId : string) : State :=
  match getConfig st modalId with
  | Some (r, config) => set_heap (<[r := set_devMode false config]> (heap st)) st
  | None => st
  end.

(** ** The timer queue *)

Definition runTask (e : Env) (st : State) (task : Task) : State :=
  match task with
  | TaskTrigger modalId => triggerModal e st modalId
  | TaskAutoClose r modalId =>
      match heap st !! r with
      | Some config => if isShown config then closeModal st modalId else st
      | None => st
      end
  end.

(** The pending timer that is due first (the oldest among equals), and
    the others in their order. *)
Fixpoint nextTimer (ts : list (Z * Task)) : option ((Z * Task) * list (Z * Task)) :=
  match ts with
  | [] => None
  | t :: ts' =>
      match nextTimer ts' with
      | Some (m, rest) =>
          if fst t <=? fst m then Some (t, ts') else Some (m, t :: rest)
      | None => Some (t, [])
      end
  end.

(** Runs, in order, the timers that are due by [now e]; each callback
    sees the clock at its own due time. *)
Fixpoint runTimers (fuel : nat) (e : Env) (st : State) : State :=
  match fuel with
  | O => st
  | S f =>
      match nextTimer (timers st) with
      | Some ((due, task), rest) =>
          if due <=? now e
          then runTimers f e (runTask (atTime e due) (set_timers rest st) task)
          else st
      | None => st
      end
  end.

(** No callback sets a timer, so one round per pending timer is enough. *)
Definition advanceTo (e : Env) (st : State) : State :=
  runTimers (length (timers st)) e st.

(** ** Concrete pages used as examples *)

Module Scenario.

(** Sun Nov 01 2026, 12:00 UTC. *)
Definition t0 : Z := 1793534400000.

Definition desktop : Env := {| now := t0; LocalTZA := 0; innerWidth := 1024 |}.

Definition after (ms : Z) : Env := atTime desktop (t0 + ms).

(** A welcome modal: shown 10 seconds after load, once per session,
    to be closed automatically after 5 seconds. *)
Definition welcomeData : Dataset :=
  {| modalTriggerType := Some "time"; modalTriggerValue := Some "10";
     modalFrequency := Some "once-per-session"; modalDelay := None;
     modalMobile := None; modalDesktop := None; modalCloseOutside := None;
     modalAutoClose := Some "5"; modalDevMode := None |}.

Definition welcome : Config := parseModalConfig welcomeData.

(** The page after discovery of the welcome modal at [t0]. *)
Definition loaded : State := registerModal desktop (initState [] []) "welcome" welcome.

(** The same page once its 10 second trigger has fired. *)
Definition shown : State := advanceTo (after 10000) loaded.

(** The visitor has closed the welcome modal again. *)
Definition dismissed : State := closeModal shown "welcome".

(** A manually triggered promotion in dev mode, not enabled on desktop. *)
Definition promoData : Dataset :=
  {| modalTriggerType := Some "manual"; modalTriggerValue := None;
     modalFrequency := Some "once-per-day"; modalDelay := None;
     modalMobile := None; modalDesktop := Some "false";
     modalCloseOutside := None; modalAutoClose := None;
     modalDevMode := Some "true" |}.

Definition promo : Config := parseModalConfig promoData.

(** A dev-mode modal enabled everywhere, registered and shown by hand. *)
Definition previewData : Dataset :=
  {| modalTriggerType := Some "manual"; modalTriggerValue := None;
     modalFrequency := Some "once-per-week"; modalDelay := None;
     modalMobile := None; modalDesktop := None;
     modalCloseOutside := None; modalAutoClose := Some "5";
     modalDevMode := Some "true" |}.

Definition preview : Config := parseModalConfig previewData.

Definition previewShown : State :=
  show (after 1000)
       (registerModal desktop (initState [] []) "preview" preview) "preview".

(** A session store holding two records written more than a week
    before [t0]. *)
Definition staleSession : Storage.t :=
  [("modal_a_session", "1792000000000"); ("modal_b_session", "1792000001000")].

End Scenario.

(** ** Observations used in the statements *)

(** Is the modal of this id registered and currently shown? *)
Definition isVisible (st : State) (modalId : string) : bool :=
  match getConfig st modalId with
  | Some (_, config) => isShown config
  | None => false
  end.

(** The dev-mode flag the gating check sees for this id. *)
Definition devModeOf (st : State) (modalId : string) : bool :=
  match getConfig st modalId with
  | Some (_, config) => devMode config
  | None => false
  end.

(** The local calendar day of a clock reading. *)
Definition localDay (e : Env) : Z :=
  JSDate.Day (JSDate.LocalTime (LocalTZA e) (now e)).

(** Two clock readings fall in the same scope window of a frequency kind:
    the same local calendar day for [once-per-day], the same week number
    for [once-per-week]; the session store itself is the session. *)
Definition sameScopeWindow (kind : string) (e e' : Env) : Prop :=
  if decide (kind = "once-per-day") then localDay e' = localDay e
  else if decide (kind = "once-per-week") then getWeekNumber e' = getWeekNumber e
  else True.

(** The frequency [switch] of [canShowModal], as it runs when the dev-mode
    shortcut is not taken. *)
Definition frequencyAllows (e : Env) (st : State) (modalId frequency : string) : bool :=
  let key := storage_prefix +:+ modalId in
  if decide (frequency = "always") then true
  else if decide (frequency = "once-per-session") then
    negb (JS.truthy (Storage.getItem (session st) (key +:+ "_session")))
  else if decide (frequency = "once-per-day") then
    negb (bool_decide (Storage.getItem (local st) (key +:+ "_day") = Some (todayKey e)))
  else if decide (frequency = "once-per-week") then
    negb (JS.parseIntOr0 (Storage.getItem (local st) (key +:+ "_week")) =? getWeekNumber e)
  else true.

(** Milliseconds elapsed since local midnight of 1 January of the
    current local year, in the words of the week-number rule. *)
Definition msSinceJan1 (e : Env) : Z :=
  let t := JSDate.LocalTime (LocalTZA e) (now e) in
  t - JSDate.TimeFromYear (JSDate.YearFromTime t).

(** The test of [cleanupOldData] on one item: a prefixed key whose value
    is a time stamp older than [oneWeekAgo]. *)
Definition isExpired (oneWeekAgo : Z) (key value : string) : bool :=
  JS.truthy (Some key) && JS.startsWith storage_prefix key
  && JS.truthy (Some value)
  && match JS.parseInt value with Some n => n <? oneWeekAgo | None => false end.

(** Does the string consist of decimal digits only? *)
Fixpoint allDigits (s : string) : bool :=
  match s with
  | String c s' => bool_decide (is_Some (JS.digitValue 10 c)) && allDigits s'
  | EmptyString => true
  end.

(** ** The rest of the manager *)

(** The object returned by [getStatus]; [None] stands for a key that is
    missing ([triggerType], [frequency]) or [null] ([lastShown]). *)
Module Status.
Record t := mk {
  isRegistered : bool;
  isShown : bool;
  lastShown : option Z;
  canShow : bool;
  devMode : bool;
  triggerType : option string;
  frequency : option string
}.
End Status.

Definition getStatus (e : Env) (st : State) (modalId : string) : Status.t :=
  match getConfig st modalId with
  | Some (_, config) =>
      {| Status.isRegistered := true;
         Status.isShown := isShown config;
         Status.lastShown := lastShown config;
         Status.canShow := canShowModal e st modalId (frequency config);
         Status.devMode := devMode config;
         Status.triggerType := Some (triggerType config);
         Status.frequency := Some (frequency config) |}
  | None =>
      {| Status.isRegistered := false;
         Status.isShown := false;
         Status.lastShown := None;
         Status.canShow := false;
         Status.devMode := false;
         Status.triggerType := None;
         Status.frequency := None |}
  end.

(** [hideAll()].  [keys] is the order in which the [Map] enumerates its
    ids (the order of their first registration), which the state does not
    record. *)
Definition hideAll (keys : list string) (st : State) : State :=
  foldl (fun st modalId =>
           match getConfig st modalId with
           | Some (_, config) => if isShown config then closeModal st modalId else st
           | None => st
           end) st keys.

(** An element matched by [querySelectorAll('[data-modal-trigger-type]')]:
    its [data-modal-id] and its other attributes. *)
Record Element := mkElement {
  elementModalId : option string;
  elementDataset : Dataset
}.

(** The callback of [discoverModals] on one element. *)
Definition discoverModal (e : Env) (st : State) (modal : Element) : State :=
  match elementModalId modal with
  | Some modalId =>
      if negb (JS.truthy (Some modalId)) then st
      else registerModal e st modalId (parseModalConfig (elementDataset modal))
  | None => st
  end.

Definition discoverModals (e : Env) (st : State) (modalElements : list Element) : State :=
  foldl (discoverModal e) st modalElements.

(** [init()], on a fresh manager.  When the document is still loading the
    discovery waits for [DOMContentLoaded] (clock reading [eReady]) and
    the cleanup runs first; otherwise the discovery runs first. *)
Definition init (e : Env) (loading : bool) (eReady : Env)
    (modalElements : list Element) (st : State) : option State :=
  if loading then
    st1 ← cleanupOldData e st; Some (discoverModals eReady st1 modalElements)
  else cleanupOldData e (discoverModals e st modalElements).

(** ** More example pages *)

Module ScenarioMore.

(** The same clock on a phone. *)
Definition phone : Env :=
  {| now := Scenario.t0 + 30000; LocalTZA := 0; innerWidth := 375 |}.

(** A modal for wide viewports only, shown on every trigger. *)
Definition wideData : Dataset :=
  {| modalTriggerType := Some "manual"; modalTriggerValue := None;
     modalFrequency := Some "always"; modalDelay := None;
     modalMobile := Some "false"; modalDesktop := None;
     modalCloseOutside := None; modalAutoClose := None; modalDevMode := None |}.

Definition wide : Config := parseModalConfig wideData.

(** A banner with the default trigger (page load, no delay), shown on
    every visit and closed automatically after 5 seconds. *)
Definition bannerData : Dataset :=
  {| modalTriggerType := None; modalTriggerValue := None;
     modalFrequency := Some "always"; modalDelay := None;
     modalMobile := None; modalDesktop := None;
     modalCloseOutside := None; modalAutoClose := Some "5"; modalDevMode := None |}.

Definition banner : Config := parseModalConfig bannerData.

(** The elements of a page: the welcome modal, an element without an id
    and the banner. *)
Definition page : list Element :=
  [ {| elementModalId := Some "welcome"; elementDataset := Scenario.welcomeData |};
    {| elementModalId := None; elementDataset := bannerData |};
    {| elementModalId := Some "banner"; elementDataset := bannerData |} ].

(** A session store whose only item is a welcome record older than a
    week at [Scenario.t0]. *)
Definition oldWelcome : Storage.t := [("modal_welcome_session", "1792000000000")].

End ScenarioMore.

(** ** Runs of the page *)

(** What can happen to the page: the commands of [window.ModalManager],
    a discovery, a trigger firing, a pending callback running (a timer, or
    a handler that closed over a config object), the timers due by now,
    and the cleanup. *)
Inductive Command :=
| CmdDiscover (modalElements : list Element)
| CmdShow (modalId : string)
| CmdHide (modalId : string)
| CmdHideAll (keys : list string)
| CmdForceClose (modalId : string)
| CmdResetFrequency (modalId : string)
| CmdEnableDevMode (modalId : string)
| CmdDisableDevMode (modalId : string)
| CmdTrigger (modalId : string)
| CmdCallback (task : Task)
| CmdAdvance
| CmdCleanup.

Definition exec (e : Env) (st : State) (cmd : Command) : State :=
  match cmd with
  | CmdDiscover modalElements => discoverModals e st modalElements
  | CmdShow modalId => show e st modalId
  | CmdHide modalId => hide st modalId
  | CmdHideAll keys => hideAll keys st
  | CmdForceClose modalId => forceClose st modalId
  | CmdResetFrequency modalId => resetFrequency st modalId
  | CmdEnableDevMode modalId => enableDevMode st modalId
  | CmdDisableDevMode modalId => disableDevMode st modalId
  | CmdTrigger modalId => triggerModal e st modalId
  | CmdCallback task => runTask e st task
  | CmdAdvance => advanceTo e st
  | CmdCleanup => default st (cleanupOldData e st)
  end.

Definition run (trace : list (Env * Command)) (st : State) : State :=
  foldl (fun st step => exec (fst step) st (snd step)) st trace.

(** The fields of a config object that no method assigns. *)
Definition sameStatic (c c' : Config) : Prop :=
  triggerType c' = triggerType c /\ triggerValue c' = triggerValue c
  /\ frequency c' = frequency c /\ delay c' = delay c
  /\ mobileEnabled c' = mobileEnabled c /\ desktopEnabled c' = desktopEnabled c
  /\ closeOnOutsideClick c' = closeOnOutsideClick c
  /\ autoCloseAfter c' = autoCloseAfter c.

(** A shown object carries the time of its show. *)
Definition stamped (c : Config) : Prop :=
  isShown c = true -> is_Some (lastShown c).

(** The id map is sound: every id resolves to an object of the heap, no
    two ids share an object, and every object is [stamped]. *)
Definition wellFormed (st : State) : Prop :=
  (forall modalId r, modals st !! modalId = Some r -> (r < length (heap st))%nat)
  /\ (forall id1 id2 r,
        modals st !! id1 = Some r -> modals st !! id2 = Some r -> id1 = id2)
  /\ (forall r c, heap st !! r = Some c -> stamped c).

(** No id of the map refers to the object [r]. *)
Definition orphan (st : State) (r : nat) : Prop :=
  forall modalId, modals st !! modalId <> Some r.

(** One step of the page seen from the heap: the map and the fields that
    no method assigns stay, objects are changed in place, and orphans are
    not changed at all. *)
Definition heapStep (st st' : State) : Prop :=
  modals st' = modals st
  /\ length (heap st') = length (heap st)
  /\ (forall r c, heap st !! r = Some c ->
        exists c', heap st' !! r = Some c' /\ sameStatic c c'
                   /\ (stamped c -> stamped c'))
  /\ (forall r, orphan st r -> heap st' !! r = heap st !! r).

(** One step of the page in general: the heap only grows, objects keep
    the fields that no method assigns, ids stay registered, and an orphan
    stays an orphan and is not changed. *)
Definition pageStep (st st' : State) : Prop :=
  (length (heap st) <= length (heap st'))%nat
  /\ (forall r c, heap st !! r = Some c ->
        exists c', heap st' !! r = Some c' /\ sameStatic c c'
                   /\ (stamped c -> stamped c'))
  /\ (forall modalId, is_Some (modals st !! modalId) -> is_Some (modals st' !! modalId))
  /\ (forall r, (r < length (heap st))%nat -> orphan st r ->
        orphan st' r /\ heap st' !! r = heap st !! r).

(** The last character of a string. *)
Fixpoint lastChar (s : string) : option ascii :=
  match s with
  | EmptyString => None
  | String c EmptyString => Some c
  | String _ s' => lastChar s'
  end.

(** * Properties *)

(** ** Numbers and strings *)

Module JSFacts.
Import JS.

Lemma digitValue_digitChar d :
  0 <= d < 10 -> digitValue 10 (digitChar d) = Some d.
Proof.
  intros Hd.
  assert (d = 0 \/ d = 1 \/ d = 2 \/ d = 3 \/ d = 4 \/ d = 5 \/ d = 6
          \/ d = 7 \/ d = 8 \/ d = 9) as Hcases by lia.
  repeat (destruct Hcases as [-> | Hcases]; [reflexivity |]).
  subst d. reflexivity.
Qed.

(** A decimal digit is one of the ten characters ["0"] .. ["9"]. *)
Lemma digitValue_10_inv c d :
  digitValue 10 c = Some d -> 0 <= d < 10 /\ c = digitChar d.
Proof.
  destruct c as [[] [] [] [] [] [] [] []]; intros H; vm_compute in H;
    first [discriminate H | injection H as <-; split; [lia | reflexivity]].
Qed.

Lemma allDigits_digitsOf fuel n rest :
  allDigits rest = true -> allDigits (digitsOf fuel n rest) = true.
Proof.
  revert n rest. induction fuel as [| f IH]; intros n rest Hrest; [exact Hrest |].
  cbn [digitsOf].
  assert (allDigits (String (digitChar (n mod 10)) rest) = true) as Hacc.
  { cbn [allDigits]. rewrite digitValue_digitChar by (apply Z.mod_pos_bound; lia).
    rewrite bool_decide_true by eauto. exact Hrest. }
  destruct (n / 10 =? 0); [exact Hacc | apply IH, Hacc].
Qed.

Lemma digitsOf_nonempty f n rest : digitsOf (S f) n rest <> "".
Proof.
  revert n rest. induction f as [| f IH]; intros n rest; cbn [digitsOf].
  - destruct (n / 10 =? 0); discriminate.
  - destruct (n / 10 =? 0); [discriminate | apply IH].
Qed.

(** Reading back the digits of [n] continues from [acc] shifted left. *)
Lemma parseDigits_digitsOf f n rest acc :
  0 <= n < 2 ^ Z.of_nat (S f) ->
  exists k, 0 <= k /\
    parseDigits 10 acc (digitsOf (S f) n rest)
    = parseDigits 10 (acc * 10 ^ k + n) rest.
Proof.
  revert n rest acc. induction f as [| f IH]; intros n rest acc Hn.
  - exists 1. split; [lia |]. change (2 ^ Z.of_nat 1) with 2 in Hn.
    cbn [digitsOf]. replace (n / 10) with 0 by (symmetry; apply Z.div_small; lia).
    cbn [Z.eqb parseDigits]. rewrite digitValue_digitChar by (apply Z.mod_pos_bound; lia).
    f_equal. rewrite Z.mod_small by lia. lia.
  - remember (S f) as f1 eqn:Hf1. cbn [digitsOf].
    destruct (n / 10 =? 0) eqn:Hq.
    + exists 1. split; [lia |]. apply Z.eqb_eq in Hq.
      cbn [parseDigits]. rewrite digitValue_digitChar by (apply Z.mod_pos_bound; lia).
      f_equal. pose proof (Z.div_mod n 10 ltac:(lia)). lia.
    + apply Z.eqb_neq in Hq. subst f1.
      assert (0 <= n / 10 < 2 ^ Z.of_nat (S f)) as Hn'.
      { split; [apply Z.div_pos; lia |].
        apply Z.div_lt_upper_bound; [lia |].
        rewrite (Nat2Z.inj_succ (S f)), Z.pow_succ_r in Hn by lia. lia. }
      destruct (IH (n / 10) (String (digitChar (n mod 10)) rest) acc Hn')
        as (k & Hk & Heq).
      exists (k + 1). split; [lia |]. rewrite Heq. cbn [parseDigits].
      rewrite digitValue_digitChar by (apply Z.mod_pos_bound; lia).
      f_equal. rewrite Z.pow_add_r by lia.
      pose proof (Z.div_mod n 10 ltac:(lia)). lia.
Qed.

Lemma parseDigits_toDigits n :
  0 <= n -> parseDigits 10 0 (digitsOf (S (Z.to_nat (Z.log2 n))) n "") = n.
Proof.
  intros Hn.
  destruct (parseDigits_digitsOf (Z.to_nat (Z.log2 n)) n "" 0) as (k & _ & ->).
  - split; [exact Hn |]. rewrite Nat2Z.inj_succ, Z2Nat.id by apply Z.log2_nonneg.
    destruct (Z.eq_dec n 0) as [-> | Hne]; [reflexivity |].
    apply Z.log2_spec. lia.
  - cbn [parseDigits]. lia.
Qed.

(** A non-empty string of decimal digits parses as its digits. *)
Lemma parseMagnitude_digits s :
  allDigits s = true -> s <> "" -> parseMagnitude s = Some (parseDigits 10 0 s).
Proof.
  destruct s as [| c s]; [congruence |]. intros Hall _.
  cbn [allDigits] in Hall. apply andb_prop in Hall as [Hc Hs].
  apply bool_decide_eq_true in Hc as [d Hd].
  destruct (digitValue_10_inv _ _ Hd) as [Hrange ->].
  assert (d = 0 \/ d = 1 \/ d = 2 \/ d = 3 \/ d = 4 \/ d = 5 \/ d = 6
          \/ d = 7 \/ d = 8 \/ d = 9) as Hcases by lia.
  destruct Hcases as [-> | Hcases].
  - destruct s as [| c2 s]; [reflexivity |].
    cbn [allDigits] in Hs. apply andb_prop in Hs as [Hc2 _].
    apply bool_decide_eq_true in Hc2 as [d2 Hd2].
    destruct (digitValue_10_inv _ _ Hd2) as [Hrange2 ->].
    assert (d2 = 0 \/ d2 = 1 \/ d2 = 2 \/ d2 = 3 \/ d2 = 4 \/ d2 = 5 \/ d2 = 6
            \/ d2 = 7 \/ d2 = 8 \/ d2 = 9) as Hcases2 by lia.
    repeat (destruct Hcases2 as [-> | Hcases2]; [reflexivity |]).
    subst d2. reflexivity.
  - repeat (destruct Hcases as [-> | Hcases]; [reflexivity |]).
    subst d. reflexivity.
Qed.

(** In front of a digit there is no white space and no sign to skip. *)
Lemma parseInt_unsigned c s :
  is_Some (digitValue 10 c) -> parseInt (String c s) = parseMagnitude (String c s).
Proof.
  destruct c as [[] [] [] [] [] [] [] []]; intros [d H]; vm_compute in H;
    try discriminate H; clear H;
    unfold parseInt; cbn [trimStart];
    match goal with
    | |- context [isWhiteSpace ?c] => change (isWhiteSpace c) with false
    end; cbv beta iota zeta;
    (destruct (parseMagnitude _) as [m |]; [f_equal; lia | reflexivity]).
Qed.

Lemma parseInt_digits s :
  allDigits s = true -> s <> "" -> parseInt s = Some (parseDigits 10 0 s).
Proof.
  intros Hall Hne. rewrite <- (parseMagnitude_digits s Hall Hne).
  destruct s as [| c s]; [congruence |].
  cbn [allDigits] in Hall. apply andb_prop in Hall as [Hc _].
  apply bool_decide_eq_true in Hc. apply parseInt_unsigned, Hc.
Qed.

(** Printing an integer and parsing it back gives the integer. *)
Lemma parseInt_numberToString z : parseInt (numberToString z) = Some z.
Proof.
  unfold numberToString. destruct (z <? 0) eqn:Hz.
  - apply Z.ltb_lt in Hz. unfold parseInt.
    cbn [trimStart]. change (isWhiteSpace "-") with false. cbv iota.
    rewrite parseMagnitude_digits.
    + rewrite parseDigits_toDigits by lia. f_equal. lia.
    + apply allDigits_digitsOf. reflexivity.
    + apply digitsOf_nonempty.
  - apply Z.ltb_ge in Hz. rewrite parseInt_digits.
    + rewrite parseDigits_toDigits by lia. reflexivity.
    + apply allDigits_digitsOf. reflexivity.
    + apply digitsOf_nonempty.
Qed.

Lemma numberToString_truthy z : truthy (Some (numberToString z)) = true.
Proof.
  unfold numberToString. destruct (z <? 0); [reflexivity |].
  pose proof (digitsOf_nonempty (Z.to_nat (Z.log2 z)) z "") as Hne.
  destruct (digitsOf _ z ""); [congruence | reflexivity].
Qed.

Lemma parseIntOr0_numberToString z : parseIntOr0 (Some (numberToString z)) = z.
Proof. unfold parseIntOr0. rewrite parseInt_numberToString. reflexivity. Qed.

(** [Math.ceil(a / b)] is the least integer [w] with [a <= w * b]. *)
Lemma Math_ceil_div_spec a b w :
  0 < b -> Math_ceil_div a b = w <-> (w - 1) * b < a <= w * b.
Proof.
  intros Hb. unfold Math_ceil_div.
  pose proof (Z.div_mod (- a) b ltac:(lia)) as Hdm.
  pose proof (Z.mod_pos_bound (- a) b Hb) as Hmod.
  split; [intros <-; nia | intros Hw; nia].
Qed.

End JSFacts.

(** ** Storage *)

Module StorageFacts.
Import Storage.

Lemma getItem_setItem_eq s k v : getItem (setItem s k v) k = Some v.
Proof.
  induction s as [| [k' v'] s IH]; cbn [setItem getItem].
  - rewrite decide_True by done. done.
  - destruct (decide (k' = k)) as [-> | Hne]; cbn [getItem].
    + rewrite decide_True by done. done.
    + rewrite decide_False by done. exact IH.
Qed.

Lemma getItem_setItem_ne s k v k0 :
  k <> k0 -> getItem (setItem s k v) k0 = getItem s k0.
Proof.
  intros Hne. induction s as [| [k' v'] s IH]; cbn [setItem getItem].
  - rewrite decide_False by done. done.
  - destruct (decide (k' = k)) as [-> | Hne']; cbn [getItem].
    + rewrite !decide_False by done. done.
    + destruct (decide (k' = k0)); [done | exact IH].
Qed.

Lemma getItem_removeItem_eq s k : getItem (removeItem s k) k = None.
Proof.
  induction s as [| [k' v'] s IH]; cbn [removeItem getItem]; [done |].
  destruct (decide (k' = k)) as [-> | Hne]; [exact IH |].
  cbn [getItem]. rewrite decide_False by done. exact IH.
Qed.

Lemma getItem_removeItem_ne s k k0 :
  k <> k0 -> getItem (removeItem s k) k0 = getItem s k0.
Proof.
  intros Hne. induction s as [| [k' v'] s IH]; cbn [removeItem getItem]; [done |].
  destruct (decide (k' = k)) as [-> | Hne'].
  - rewrite decide_False by done. exact IH.
  - cbn [getItem]. destruct (decide (k' = k0)); [done | exact IH].
Qed.

(** Removing an item never brings another one back. *)
Lemma getItem_removeItem_None s k k0 :
  getItem s k0 = None -> getItem (removeItem s k) k0 = None.
Proof.
  intros Hnone. destruct (decide (k = k0)) as [-> | Hne].
  - apply getItem_removeItem_eq.
  - rewrite getItem_removeItem_ne by done. exact Hnone.
Qed.

Lemma length_removeItem s k : (length (removeItem s k) <= length s)%nat.
Proof.
  induction s as [| [k' v'] s IH]; cbn [removeItem length]; [lia |].
  destruct (decide (k' = k)); cbn [length]; lia.
Qed.

Lemma removeItem_absent s k : getItem s k = None -> removeItem s k = s.
Proof.
  induction s as [| [k' v'] s IH]; cbn [removeItem getItem]; [done |].
  destruct (decide (k' = k)); [discriminate |]. intros H. by rewrite IH.
Qed.

End StorageFacts.

(** ** Reading the state after each method *)

Section StateFacts.
Implicit Types (st : State) (e : Env) (c : Config).

Lemma getConfig_Some st modalId r c :
  getConfig st modalId = Some (r, c) ->
  modals st !! modalId = Some r /\ heap st !! r = Some c.
Proof.
  unfold getConfig. destruct (modals st !! modalId) as [r' |]; [| discriminate].
  destruct (heap st !! r') as [c' |] eqn:Hh; [| discriminate].
  intros [= <- <-]. done.
Qed.

(** Writing the object behind [modalId] shows up at the next [get]. *)
Lemma getConfig_set_heap st modalId r c c' :
  getConfig st modalId = Some (r, c) ->
  getConfig (set_heap (<[r := c']> (heap st)) st) modalId = Some (r, c').
Proof.
  intros [Hm Hh]%getConfig_Some. unfold getConfig. cbn [modals heap set_heap].
  rewrite Hm, list_lookup_insert_eq; [done |].
  eapply lookup_lt_Some, Hh.
Qed.

(** The gating check reads the dev-mode flag of the registered object
    and the three frequency records of the id, nothing else. *)
Lemma canShowModal_ext e st st' modalId frequency :
  devModeOf st' modalId = devModeOf st modalId ->
  Storage.getItem (session st') ((storage_prefix +:+ modalId) +:+ "_session")
  = Storage.getItem (session st) ((storage_prefix +:+ modalId) +:+ "_session") ->
  Storage.getItem (local st') ((storage_prefix +:+ modalId) +:+ "_day")
  = Storage.getItem (local st) ((storage_prefix +:+ modalId) +:+ "_day") ->
  Storage.getItem (local st') ((storage_prefix +:+ modalId) +:+ "_week")
  = Storage.getItem (local st) ((storage_prefix +:+ modalId) +:+ "_week") ->
  canShowModal e st' modalId frequency = canShowModal e st modalId frequency.
Proof.
  intros Hc Hs Hd Hw. unfold canShowModal. rewrite Hs, Hd, Hw.
  unfold devModeOf in Hc.
  destruct (getConfig st' modalId) as [[r' [? ? ? ? ? ? ? ? [] ? ?]] |],
           (getConfig st modalId) as [[r [? ? ? ? ? ? ? ? [] ? ?]] |];
    cbn in Hc; try discriminate; done.
Qed.

Lemma canShowModal_devMode e st modalId frequency r c :
  getConfig st modalId = Some (r, c) -> devMode c = true ->
  canShowModal e st modalId frequency = true.
Proof.
  intros Hget Hdev. unfold canShowModal. rewrite Hget.
  destruct c; cbn in Hdev; subst; done.
Qed.

Lemma trackModalDisplay_config e st modalId frequency id' :
  getConfig (trackModalDisplay e st modalId frequency) id' = getConfig st id'.
Proof.
  unfold trackModalDisplay.
  destruct (getConfig st modalId) as [[r [? ? ? ? ? ? ? ? [] ? ?]] |];
    repeat case_decide; done.
Qed.

Lemma showModal_config e st modalId r c :
  getConfig st modalId = Some (r, c) ->
  getConfig (showModal e st modalId) modalId
  = Some (r, set_shown true (Some (now e)) c).
Proof.
  intros Hget. unfold showModal. rewrite Hget.
  unfold dispatchModalEvent, set_bodyOverflow, getConfig. cbn [modals heap].
  fold (getConfig (trackModalDisplay e
         (set_heap (<[r:=set_shown true (Some (now e)) c]> (heap st)) st)
         modalId (frequency c)) modalId).
  rewrite trackModalDisplay_config. eapply getConfig_set_heap, Hget.
Qed.

Lemma showModal_unregistered e st modalId :
  getConfig st modalId = None -> showModal e st modalId = st.
Proof. intros Hget. unfold showModal. by rewrite Hget. Qed.

End StateFacts.

(** ** Frequency gating *)

Section Gating.
Implicit Types (st : State) (e : Env) (c : Config).

Lemma canShowModal_noDev e st modalId frequency r c :
  getConfig st modalId = Some (r, c) -> devMode c = false ->
  canShowModal e st modalId frequency = frequencyAllows e st modalId frequency.
Proof.
  intros Hget Hdev. unfold canShowModal. rewrite Hget.
  destruct c; cbn in Hdev; subst; done.
Qed.

Lemma canShowModal_unregistered e st modalId frequency :
  getConfig st modalId = None ->
  canShowModal e st modalId frequency = frequencyAllows e st modalId frequency.
Proof. intros Hget. unfold canShowModal. by rewrite Hget. Qed.

Lemma frequencyAllows_session e st modalId :
  frequencyAllows e st modalId "once-per-session"
  = negb (JS.truthy (Storage.getItem (session st)
                       ((storage_prefix +:+ modalId) +:+ "_session"))).
Proof. reflexivity. Qed.

Lemma frequencyAllows_day e st modalId :
  frequencyAllows e st modalId "once-per-day"
  = negb (bool_decide (Storage.getItem (local st)
                         ((storage_prefix +:+ modalId) +:+ "_day")
                       = Some (todayKey e))).
Proof. reflexivity. Qed.

Lemma frequencyAllows_week e st modalId :
  frequencyAllows e st modalId "once-per-week"
  = negb (JS.parseIntOr0 (Storage.getItem (local st)
                            ((storage_prefix +:+ modalId) +:+ "_week"))
          =? getWeekNumber e).
Proof. reflexivity. Qed.

Lemma todayKey_localDay e e' : localDay e' = localDay e -> todayKey e' = todayKey e.
Proof.
  unfold localDay, todayKey, JSDate.toDateString, JSDate.DateString.
  generalize (JSDate.LocalTime (LocalTZA e') (now e')) as t'.
  generalize (JSDate.LocalTime (LocalTZA e) (now e)) as t.
  intros t t' Hday.
  assert (JSDate.YearFromTime t' = JSDate.YearFromTime t) as Hy
    by (unfold JSDate.YearFromTime; by rewrite Hday).
  assert (JSDate.WeekDay t' = JSDate.WeekDay t) as Hw
    by (unfold JSDate.WeekDay; by rewrite Hday).
  assert (JSDate.InLeapYear t' = JSDate.InLeapYear t) as Hl
    by (unfold JSDate.InLeapYear; by rewrite Hy).
  assert (JSDate.DayWithinYear t' = JSDate.DayWithinYear t) as Hd
    by (unfold JSDate.DayWithinYear; by rewrite Hday, Hy).
  assert (JSDate.MonthFromTime t' = JSDate.MonthFromTime t) as Hm
    by (unfold JSDate.MonthFromTime; by rewrite Hd, Hl).
  assert (JSDate.DateFromTime t' = JSDate.DateFromTime t) as Hdt
    by (unfold JSDate.DateFromTime; by rewrite Hd, Hl, Hm).
  by rewrite Hy, Hw, Hm, Hdt.
Qed.

(** A show of a modal that is not in dev mode writes the record of its
    own frequency kind, and only that one. *)
Lemma showModal_records e st modalId r c :
  getConfig st modalId = Some (r, c) -> devMode c = false ->
  let key := storage_prefix +:+ modalId in
  session (showModal e st modalId)
  = (if decide (frequency c = "once-per-session")
     then Storage.setItem (session st) (key +:+ "_session") (JS.numberToString (now e))
     else session st)
  /\ local (showModal e st modalId)
  = (if decide (frequency c = "once-per-session") then local st
     else if decide (frequency c = "once-per-day")
     then Storage.setItem (local st) (key +:+ "_day") (todayKey e)
     else if decide (frequency c = "once-per-week")
     then Storage.setItem (local st) (key +:+ "_week")
            (JS.numberToString (getWeekNumber e))
     else local st).
Proof.
  intros Hget Hdev key. unfold showModal. rewrite Hget.
  unfold dispatchModalEvent, set_bodyOverflow. cbn [session local].
  unfold trackModalDisplay.
  rewrite (getConfig_set_heap _ _ _ _ (set_shown true (Some (now e)) c) Hget).
  destruct c; cbn in Hdev; subst; cbn [set_shown frequency].
  repeat case_decide; done.
Qed.

(** C1: after a show of a registered modal that is not in dev mode, of
    frequency kind once-per-session, once-per-day or once-per-week, a
    later [canShowModal] for the same id and kind in the same scope
    window (same session store, same local calendar day, same week
    number) returns false; and for a registered modal in dev mode
    [canShowModal] returns true whatever the stored history. *)
Theorem canShowModal_after_show e e' st modalId r c :
  getConfig st modalId = Some (r, c) ->
  (devMode c = false ->
   frequency c ∈ ["once-per-session"; "once-per-day"; "once-per-week"] ->
   sameScopeWindow (frequency c) e e' ->
   canShowModal e' (showModal e st modalId) modalId (frequency c) = false)
  /\ (devMode c = true ->
      forall frequency, canShowModal e' st modalId frequency = true).
Proof.
  intros Hget. split.
  - intros Hdev Hkind Hwin.
    rewrite (canShowModal_noDev _ _ _ _ r (set_shown true (Some (now e)) c));
      [| by apply showModal_config | by destruct c].
    destruct (showModal_records e st modalId r c Hget Hdev) as [Hs Hl].
    unfold sameScopeWindow in Hwin.
    rewrite !elem_of_cons, elem_of_nil in Hkind.
    destruct Hkind as [Hk | [Hk | [Hk | []]]]; rewrite Hk in Hs, Hl, Hwin |- *;
      repeat (case_decide; try congruence).
    + rewrite frequencyAllows_session, Hs.
      rewrite StorageFacts.getItem_setItem_eq, JSFacts.numberToString_truthy. done.
    + rewrite frequencyAllows_day, Hl.
      rewrite StorageFacts.getItem_setItem_eq, (todayKey_localDay _ _ Hwin).
      by rewrite bool_decide_true.
    + rewrite frequencyAllows_week, Hl.
      rewrite StorageFacts.getItem_setItem_eq, JSFacts.parseIntOr0_numberToString.
      rewrite Hwin, Z.eqb_refl. done.
  - intros Hdev frequency. by eapply canShowModal_devMode.
Qed.

(** C10: for a frequency string outside the four known kinds
    [canShowModal] returns true, for every id and every state. *)
Theorem canShowModal_unknown_frequency e st modalId frequency :
  frequency ∉ ["always"; "once-per-session"; "once-per-day"; "once-per-week"] ->
  canShowModal e st modalId frequency = true.
Proof.
  intros Hnot. rewrite !not_elem_of_cons in Hnot.
  destruct Hnot as (H1 & H2 & H3 & H4 & _).
  unfold canShowModal.
  destruct (getConfig st modalId) as [[r [? ? ? ? ? ? ? ? [] ? ?]] |];
    repeat case_decide; done.
Qed.

End Gating.

(** ** Lifecycle *)

Section Lifecycle.
Implicit Types (st : State) (e : Env) (c : Config).

Lemma isVisible_true st modalId :
  isVisible st modalId = true <->
  exists r c, getConfig st modalId = Some (r, c) /\ isShown c = true.
Proof.
  unfold isVisible. destruct (getConfig st modalId) as [[r c] |].
  - split; [eauto | intros (? & ? & [= <- <-] & H); exact H].
  - split; [discriminate | intros (? & ? & [=] & _)].
Qed.

Lemma showModal_visible e st modalId r c :
  getConfig st modalId = Some (r, c) -> isVisible (showModal e st modalId) modalId = true.
Proof.
  intros Hget. unfold isVisible. by rewrite (showModal_config _ _ _ _ _ Hget).
Qed.

(** Tracking only writes to the two stores. *)
Lemma trackModalDisplay_frame e st modalId frequency :
  let st' := trackModalDisplay e st modalId frequency in
  heap st' = heap st /\ modals st' = modals st /\ events st' = events st
  /\ timers st' = timers st /\ listeners st' = listeners st
  /\ bodyOverflow st' = bodyOverflow st.
Proof.
  cbn zeta. unfold trackModalDisplay.
  destruct (getConfig st modalId) as [[r [? ? ? ? ? ? ? ? [] ? ?]] |];
    repeat case_decide; done.
Qed.

(** Showing never touches the timer queue. *)
Lemma showModal_timers e st modalId : timers (showModal e st modalId) = timers st.
Proof.
  unfold showModal. destruct (getConfig st modalId) as [[r c] |]; [| done].
  cbn [dispatchModalEvent set_bodyOverflow timers].
  by rewrite (proj1 (proj2 (proj2 (proj2 (trackModalDisplay_frame _ _ _ _))))).
Qed.

Lemma showModal_events e st modalId r c :
  getConfig st modalId = Some (r, c) ->
  events (showModal e st modalId) = (events st ++ [("modal:shown", modalId)])%list.
Proof.
  intros Hget. unfold showModal. rewrite Hget.
  cbn [dispatchModalEvent set_bodyOverflow events].
  by rewrite (proj1 (proj2 (proj2 (trackModalDisplay_frame _ _ _ _)))).
Qed.

(** C5: for a registered modal in dev mode that is shown, [closeModal]
    and the public [hide] change nothing (the modal stays visible),
    while [forceClose] hides it, restores the page scroll and emits one
    [modal:closed] event. *)
Theorem devMode_close_blocked_forceClose_closes st modalId r c :
  getConfig st modalId = Some (r, c) -> devMode c = true -> isShown c = true ->
  closeModal st modalId = st
  /\ hide st modalId = st
  /\ isVisible (closeModal st modalId) modalId = true
  /\ isVisible (forceClose st modalId) modalId = false
  /\ bodyOverflow (forceClose st modalId) = ""
  /\ events (forceClose st modalId) = (events st ++ [("modal:closed", modalId)])%list.
Proof.
  intros Hget Hdev Hshown.
  assert (closeModal st modalId = st) as Hclose
    by (unfold closeModal; by rewrite Hget, Hshown, Hdev).
  repeat split.
  - exact Hclose.
  - exact Hclose.
  - rewrite Hclose. apply isVisible_true. eauto.
  - unfold forceClose, isVisible. rewrite Hget, Hshown. cbn [negb].
    unfold dispatchModalEvent, set_bodyOverflow, getConfig. cbn [modals heap].
    fold (getConfig (set_heap (<[r:=set_shown false (lastShown c) c]> (heap st)) st) modalId).
    by rewrite (getConfig_set_heap _ _ _ _ _ Hget).
  - unfold forceClose. by rewrite Hget, Hshown.
  - unfold forceClose. by rewrite Hget, Hshown.
Qed.

(** C6: [triggerModal] takes the modal from not visible to visible
    exactly when the id is registered, the modal is not shown and
    [canShowModal] holds at that moment; in every other case it returns
    the state unchanged.  (Every method is a total function of the
    state: there is no failure to propagate.) *)
Theorem triggerModal_fires_iff e st modalId :
  let fires := exists r c, getConfig st modalId = Some (r, c)
                 /\ isShown c = false
                 /\ canShowModal e st modalId (frequency c) = true in
  ((isVisible st modalId = false /\ isVisible (triggerModal e st modalId) modalId = true)
   <-> fires)
  /\ (~ fires -> triggerModal e st modalId = st).
Proof.
  cbn zeta. unfold triggerModal.
  destruct (getConfig st modalId) as [[r c] |] eqn:Hget.
  - destruct (isShown c) eqn:Hshown.
    + assert (isVisible st modalId = true) as Hvis by (apply isVisible_true; eauto).
      split; [| done]. split.
      * intros [Hnot _]. congruence.
      * intros (? & ? & [= <- <-] & ? & _). congruence.
    + destruct (canShowModal e st modalId (frequency c)) eqn:Hcan; cbn [negb].
      * split; [| intros Hnot; exfalso; apply Hnot; eauto].
        split; [eauto |]. intros _. split.
        -- unfold isVisible. by rewrite Hget.
        -- by eapply showModal_visible.
      * split; [| done]. split.
        -- intros [Hbefore Hafter]. congruence.
        -- intros (? & ? & [= <- <-] & _ & ?). congruence.
  - split; [| done]. split.
    + intros [Hbefore Hafter]. congruence.
    + intros (? & ? & [=] & _).
Qed.

(** For an id that is not registered, [show] returns the state unchanged. *)
Lemma show_unregistered e st modalId :
  getConfig st modalId = None -> show e st modalId = st.
Proof. apply showModal_unregistered. Qed.

(** For a registered id, shown or not, [show] emits [modal:shown] and
    stamps [lastShown]. *)
Lemma show_registered e st modalId r c :
  getConfig st modalId = Some (r, c) ->
  events (show e st modalId) = (events st ++ [("modal:shown", modalId)])%list
  /\ getConfig (show e st modalId) modalId = Some (r, set_shown true (Some (now e)) c).
Proof.
  intros Hget. split; [by eapply showModal_events | by apply showModal_config].
Qed.

(** C3, evaluated on the welcome modal while it is visible: a second
    [show] is not a no-op.  It stamps [lastShown] again, rewrites the
    session frequency record and emits a second [modal:shown] event. *)
Theorem show_visible_repeats :
  let st := Scenario.shown in
  let st' := show (Scenario.after 60000) st "welcome" in
  isVisible st "welcome" = true
  /\ st' <> st
  /\ events st = [("modal:shown", "welcome")]
  /\ events st' = [("modal:shown", "welcome"); ("modal:shown", "welcome")]
  /\ session st = [("modal_welcome_session", "1793534410000")]
  /\ session st' = [("modal_welcome_session", "1793534460000")]
  /\ (lastShown ∘ snd <$> getConfig st "welcome") = Some (Some 1793534410000)
  /\ (lastShown ∘ snd <$> getConfig st' "welcome") = Some (Some 1793534460000).
Proof.
  cbn zeta.
  assert (events (show (Scenario.after 60000) Scenario.shown "welcome")
          = [("modal:shown", "welcome"); ("modal:shown", "welcome")]) as Hev
    by (vm_compute; reflexivity).
  assert (events Scenario.shown = [("modal:shown", "welcome")]) as Hev0
    by (vm_compute; reflexivity).
  repeat split; try (vm_compute; reflexivity).
  intros Heq. rewrite Heq, Hev0 in Hev. discriminate.
Qed.

End Lifecycle.

(** ** Resetting the frequency records *)

Section Reset.
Implicit Types (st : State) (e : Env) (c : Config).

Lemma devModeOf_showModal e st modalId :
  devModeOf (showModal e st modalId) modalId = devModeOf st modalId.
Proof.
  unfold devModeOf. destruct (getConfig st modalId) as [[r c] |] eqn:Hget.
  - by rewrite (showModal_config _ _ _ _ _ Hget).
  - by rewrite showModal_unregistered, Hget.
Qed.

(** After a reset none of the three records of the id is left. *)
Lemma resetFrequency_records st modalId :
  let key := storage_prefix +:+ modalId in
  let st' := resetFrequency st modalId in
  Storage.getItem (session st') (key +:+ "_session") = None
  /\ Storage.getItem (local st') (key +:+ "_day") = None
  /\ Storage.getItem (local st') (key +:+ "_week") = None.
Proof.
  cbn zeta. unfold resetFrequency. cbn [session local set_session set_local].
  split; [apply StorageFacts.getItem_removeItem_eq |].
  split; [| apply StorageFacts.getItem_removeItem_eq].
  apply StorageFacts.getItem_removeItem_None, StorageFacts.getItem_removeItem_eq.
Qed.

(** C7 fails as stated: the welcome modal was shown and closed earlier
    in the session, so its record blocks it before the new show; after
    the show and the reset the record is gone and the check passes. *)
Lemma resetFrequency_not_roundtrip :
  let e := Scenario.after 60000 in
  let st := Scenario.dismissed in
  devModeOf st "welcome" = false
  /\ canShowModal e st "welcome" "once-per-session" = false
  /\ canShowModal e (resetFrequency (show e st "welcome") "welcome")
       "welcome" "once-per-session" = true.
Proof. cbn zeta. repeat split; vm_compute; reflexivity. Qed.

(** C7, amended: when no frequency record of the id is stored before
    the show, [show] followed by [resetFrequency] brings [canShowModal]
    back to its value before the show, for every frequency kind. *)
Theorem resetFrequency_after_show e e1 st modalId frequency :
  let key := storage_prefix +:+ modalId in
  Storage.getItem (session st) (key +:+ "_session") = None ->
  Storage.getItem (local st) (key +:+ "_day") = None ->
  Storage.getItem (local st) (key +:+ "_week") = None ->
  canShowModal e (resetFrequency (show e1 st modalId) modalId) modalId frequency
  = canShowModal e st modalId frequency.
Proof.
  cbn zeta. intros Hs Hd Hw.
  destruct (resetFrequency_records (show e1 st modalId) modalId) as (Hs' & Hd' & Hw').
  apply canShowModal_ext.
  - transitivity (devModeOf (show e1 st modalId) modalId); [done |].
    apply devModeOf_showModal.
  - by rewrite Hs, Hs'.
  - by rewrite Hd, Hd'.
  - by rewrite Hw, Hw'.
Qed.

Lemma resetFrequency_after_show_witness :
  canShowModal (Scenario.after 60000)
    (resetFrequency (show (Scenario.after 20000) Scenario.loaded "welcome") "welcome")
    "welcome" "once-per-session"
  = canShowModal (Scenario.after 60000) Scenario.loaded "welcome" "once-per-session".
Proof.
  apply (resetFrequency_after_show (Scenario.after 60000) (Scenario.after 20000)
           Scenario.loaded "welcome" "once-per-session");
    vm_compute; reflexivity.
Defined.

End Reset.

(** ** Registration *)

Section Registration.
Implicit Types (st : State) (e : Env) (c : Config).

Lemma setupModalTrigger_config e st modalId c id' :
  getConfig (setupModalTrigger e st modalId c) id' = getConfig st id'.
Proof.
  unfold setupModalTrigger, setupTimeTrigger, setupScrollTrigger,
    setupClickTrigger, setupExitIntentTrigger, setupPageLoadTrigger.
  repeat case_decide; try done.
  - by destruct (negb _).
  - by destruct (innerWidth e <=? 768).
Qed.

Lemma setupModalEvents_config e st modalId id' :
  getConfig (setupModalEvents e st modalId) id' = getConfig st id'.
Proof.
  unfold setupModalEvents. destruct (getConfig st modalId) as [[r c] |]; [| done].
  by destruct (_ && _).
Qed.

(** When both checks pass, the id maps to the new config object. *)
Lemma registerModal_registers e st modalId c :
  isDeviceCompatible e c = true ->
  canShowModal e st modalId (frequency c) = true ->
  getConfig (registerModal e st modalId c) modalId = Some (length (heap st), c).
Proof.
  intros Hdev Hcan. unfold registerModal. rewrite Hdev, Hcan. cbn [negb].
  rewrite setupModalEvents_config, setupModalTrigger_config.
  unfold getConfig. cbn [modals heap set_modals set_heap].
  rewrite lookup_insert_eq. by rewrite list_lookup_middle.
Qed.

(** C2 fails as stated: a dev-mode modal that is disabled on desktop is
    not registered on a desktop viewport. *)
Lemma registerModal_devMode_skipped :
  let st := initState [] [] in
  devMode Scenario.promo = true
  /\ registerModal Scenario.desktop st "promo" Scenario.promo = st
  /\ getConfig (registerModal Scenario.desktop st "promo" Scenario.promo) "promo" = None.
Proof. cbn zeta. repeat split; vm_compute; reflexivity. Qed.

(** C2, amended: [registerModal] skips a modal, in dev mode or not,
    whenever the device check fails; on a compatible device the modal
    is registered whenever [canShowModal] passes, which it always does
    for an id that is already registered in dev mode. *)
Theorem registerModal_gating e st modalId c :
  (isDeviceCompatible e c = false -> registerModal e st modalId c = st)
  /\ (isDeviceCompatible e c = true ->
      canShowModal e st modalId (frequency c) = true ->
      getConfig (registerModal e st modalId c) modalId = Some (length (heap st), c))
  /\ (isDeviceCompatible e c = true -> devModeOf st modalId = true ->
      getConfig (registerModal e st modalId c) modalId = Some (length (heap st), c)).
Proof.
  split; [| split].
  - intros Hdev. unfold registerModal. by rewrite Hdev.
  - apply registerModal_registers.
  - intros Hdev Hmode. apply registerModal_registers; [exact Hdev |].
    unfold devModeOf in Hmode.
    destruct (getConfig st modalId) as [[r c'] |] eqn:Hget; [| discriminate].
    by eapply canShowModal_devMode.
Qed.


Lemma registerModal_gating_witness :
  registerModal Scenario.desktop (initState [] []) "promo" Scenario.promo
  = initState [] []
  /\ getConfig (registerModal (Scenario.after 2000) Scenario.previewShown
                  "preview" Scenario.preview) "preview"
     = Some (1%nat, Scenario.preview).
Proof.
  split.
  - apply (proj1 (registerModal_gating Scenario.desktop (initState [] [])
                    "promo" Scenario.promo)).
    vm_compute. reflexivity.
  - apply (proj2 (proj2 (registerModal_gating (Scenario.after 2000)
                           Scenario.previewShown "preview" Scenario.preview)));
      vm_compute; reflexivity.
Defined.

(** At first registration the id is not in the map yet, so the dev-mode
    shortcut of [canShowModal] is not taken: a stored record of this
    week keeps the dev-mode modal from being registered. *)
Example registerModal_devMode_record_blocks :
  let st := initState [] [("modal_preview_week", "44")] in
  devMode Scenario.preview = true
  /\ isDeviceCompatible Scenario.desktop Scenario.preview = true
  /\ getWeekNumber Scenario.desktop = 44
  /\ registerModal Scenario.desktop st "preview" Scenario.preview = st.
Proof. cbn zeta. repeat split; vm_compute; reflexivity. Qed.

End Registration.

(** ** The auto-close timer *)

Section AutoClose.
Implicit Types (st : State) (e : Env) (c : Config).

(** [closeModal] leaves a dev-mode modal alone, shown or not. *)
Lemma closeModal_devMode st modalId r c :
  getConfig st modalId = Some (r, c) -> devMode c = true -> closeModal st modalId = st.
Proof.
  intros Hget Hdev. unfold closeModal. rewrite Hget, Hdev. by destruct (isShown c).
Qed.

(** An auto-close callback that fires on a dev-mode modal does nothing. *)
Lemma autoClose_devMode_blocked e st modalId r c r' :
  getConfig st modalId = Some (r, c) -> devMode c = true ->
  runTask e st (TaskAutoClose r' modalId) = st.
Proof.
  intros Hget Hdev. cbn [runTask]. destruct (heap st !! r') as [c' |]; [| done].
  destruct (isShown c'); [| done]. by eapply closeModal_devMode.
Qed.

(** Registration arms no auto-close timer for a dev-mode modal. *)
Lemma setupModalEvents_devMode e st modalId r c :
  getConfig st modalId = Some (r, c) -> devMode c = true ->
  setupModalEvents e st modalId = st.
Proof.
  intros Hget Hdev. unfold setupModalEvents. rewrite Hget, Hdev.
  by rewrite andb_false_r.
Qed.

(** C4, evaluated on the welcome modal (trigger after 10 s, auto-close
    after 5 s, not in dev mode).  A show never arms a timer.  The only
    auto-close timer is armed by the registration, for 5 s after the page
    load; it runs while the modal is still hidden and does nothing.  The
    modal is shown at 10 s, and an hour later it is still visible with no
    timer pending. *)
Theorem autoClose_armed_at_registration :
  let t0 := Scenario.t0 in
  (forall e st modalId, timers (show e st modalId) = timers st)
  /\ timers Scenario.loaded
     = [(t0 + 10000, TaskTrigger "welcome"); (t0 + 5000, TaskAutoClose 0 "welcome")]
  /\ advanceTo (Scenario.after 5000) Scenario.loaded
     = set_timers [(t0 + 10000, TaskTrigger "welcome")] Scenario.loaded
  /\ isVisible (advanceTo (Scenario.after 9999) Scenario.loaded) "welcome" = false
  /\ isVisible Scenario.shown "welcome" = true
  /\ (lastShown ∘ snd <$> getConfig Scenario.shown "welcome") = Some (Some (t0 + 10000))
  /\ timers Scenario.shown = []
  /\ advanceTo (Scenario.after 3600000) Scenario.shown = Scenario.shown
  /\ isVisible (advanceTo (Scenario.after 3600000) Scenario.shown) "welcome" = true.
Proof.
  cbn zeta. split; [intros e st modalId; apply showModal_timers |].
  repeat split; vm_compute; reflexivity.
Qed.

End AutoClose.

(** ** Cleaning up old session records *)

Section Cleanup.
Implicit Types (s : Storage.t).

Lemma cleanupStep_length oneWeekAgo s i :
  (length (cleanupStep oneWeekAgo s i) <= length s)%nat.
Proof.
  unfold cleanupStep. destruct (Storage.key s i) as [k |]; [| lia].
  destruct (_ && _); [| lia].
  destruct (Storage.getItem s k) as [v |]; [| lia].
  destruct (_ && _); [apply StorageFacts.length_removeItem | lia].
Qed.

(** The loop always ends by its own test: one round of fuel per item
    that is still ahead of the index is enough. *)
Lemma cleanupLoop_total fuel oneWeekAgo i s :
  (length s - i <= fuel)%nat -> is_Some (cleanupLoop fuel oneWeekAgo i s).
Proof.
  revert i s. induction fuel as [| f IH]; intros i s Hfuel; cbn [cleanupLoop].
  - rewrite decide_False by lia. eauto.
  - case_decide; [| eauto]. apply IH.
    pose proof (cleanupStep_length oneWeekAgo s i). lia.
Qed.

Lemma cleanupSession_total e s : is_Some (cleanupSession e s).
Proof. apply cleanupLoop_total. lia. Qed.

(** One round removes at most the item under the index, and only when
    it passes the expiry test. *)
Lemma cleanupStep_keeps oneWeekAgo s i k v :
  Storage.getItem s k = Some v -> isExpired oneWeekAgo k v = false ->
  Storage.getItem (cleanupStep oneWeekAgo s i) k = Some v.
Proof.
  intros Hget Hkeep. unfold cleanupStep.
  destruct (Storage.key s i) as [k' |]; [| done].
  destruct (JS.truthy (Some k') && JS.startsWith storage_prefix k') eqn:Hpre; [| done].
  destruct (Storage.getItem s k') as [v' |] eqn:Hget'; [| done].
  destruct (JS.truthy (Some v') && _) eqn:Hold; [| done].
  rewrite StorageFacts.getItem_removeItem_ne; [done |].
  intros ->. rewrite Hget in Hget'. injection Hget' as ->.
  unfold isExpired in Hkeep. rewrite Hpre in Hkeep. cbn [andb] in Hkeep.
  congruence.
Qed.

Lemma cleanupLoop_keeps fuel oneWeekAgo i s s' k v :
  cleanupLoop fuel oneWeekAgo i s = Some s' ->
  Storage.getItem s k = Some v -> isExpired oneWeekAgo k v = false ->
  Storage.getItem s' k = Some v.
Proof.
  revert i s. induction fuel as [| f IH]; intros i s; cbn [cleanupLoop];
    case_decide; try discriminate; try (intros [= ->]; done).
  intros Hloop Hget Hkeep. eapply IH; [exact Hloop | | exact Hkeep].
  by apply cleanupStep_keeps.
Qed.

(** Items that are not expired, and items without the prefix, survive
    the cleanup with their values. *)
Lemma cleanupSession_keeps e s s' k v :
  cleanupSession e s = Some s' ->
  Storage.getItem s k = Some v ->
  isExpired (now e - 7 * 24 * 60 * 60 * 1000) k v = false ->
  Storage.getItem s' k = Some v.
Proof. apply cleanupLoop_keeps. Qed.

(** C9, evaluated on a session store with two expired records: the
    cleanup removes the first, which moves the second to index 0; the
    index goes on to 1, past the end, and the second record stays. *)
Theorem cleanupOldData_skips_next :
  let e := Scenario.desktop in
  let s := Scenario.staleSession in
  isExpired (now e - 7 * 24 * 60 * 60 * 1000) "modal_a_session" "1792000000000" = true
  /\ isExpired (now e - 7 * 24 * 60 * 60 * 1000) "modal_b_session" "1792000001000" = true
  /\ cleanupSession e s = Some [("modal_b_session", "1792000001000")]
  /\ (session <$> cleanupOldData e (initState s []))
     = Some [("modal_b_session", "1792000001000")].
Proof. cbn zeta. repeat split; vm_compute; reflexivity. Qed.


(** Whatever the order of two expired items under distinct keys, the
    loop removes the one at index 0 and stops: one of them is left. *)
Lemma cleanup_two_expired e k1 v1 k2 v2 :
  k1 <> k2 ->
  isExpired (now e - 7 * 24 * 60 * 60 * 1000) k1 v1 = true ->
  isExpired (now e - 7 * 24 * 60 * 60 * 1000) k2 v2 = true ->
  cleanupSession e [(k1, v1); (k2, v2)] = Some [(k2, v2)].
Proof.
  intros Hne H1 _. unfold isExpired in H1.
  apply andb_prop in H1 as [H1 Hold]. apply andb_prop in H1 as [Hpre Hv].
  unfold cleanupSession. cbn [length cleanupLoop].
  rewrite decide_True by lia.
  assert (cleanupStep (now e - 7 * 24 * 60 * 60 * 1000) [(k1, v1); (k2, v2)] 0
          = [(k2, v2)]) as ->.
  { unfold cleanupStep. cbn [Storage.key lookup list_lookup fmap option_fmap option_map fst].
    rewrite Hpre. cbn [Storage.getItem]. rewrite decide_True by done.
    rewrite Hv, Hold. cbn [andb Storage.removeItem].
    rewrite decide_True by done. by rewrite decide_False by done. }
  cbn [length]. by rewrite decide_False by lia.
Qed.

End Cleanup.

(** ** The week number *)

Section WeekNumber.
Implicit Types (e : Env).

(** [YearFromDay] is the year the day belongs to. *)
Lemma YearFromDay_spec d :
  JSDate.DayFromYear (JSDate.YearFromDay d) <= d
  < JSDate.DayFromYear (JSDate.YearFromDay d + 1).
Proof.
  unfold JSDate.YearFromDay.
  destruct (Z.leb_spec (JSDate.DayFromYear (1970 + d * 400 / 146097 + 1)) d)
    as [H1 | H1].
  - split; [exact H1 |]. clear H1. unfold JSDate.DayFromYear.
    Z.div_mod_to_equations. lia.
  - destruct (Z.leb_spec (JSDate.DayFromYear (1970 + d * 400 / 146097)) d)
      as [H2 | H2]; [split; assumption |].
    split.
    + clear. unfold JSDate.DayFromYear. Z.div_mod_to_equations. lia.
    + replace (1970 + d * 400 / 146097 - 1 + 1) with (1970 + d * 400 / 146097)
        by lia.
      exact H2.
Qed.

Lemma DayFromYear_next y :
  365 <= JSDate.DayFromYear (y + 1) - JSDate.DayFromYear y <= 366.
Proof. unfold JSDate.DayFromYear. Z.div_mod_to_equations. lia. Qed.

(** 1 January of the current year lies at most 366 days back. *)
Lemma msSinceJan1_range e : 0 <= msSinceJan1 e < 366 * JSDate.msPerDay.
Proof.
  unfold msSinceJan1, JSDate.TimeFromYear, JSDate.YearFromTime.
  set (t := JSDate.LocalTime (LocalTZA e) (now e)).
  pose proof (YearFromDay_spec (JSDate.Day t)) as Hy.
  pose proof (DayFromYear_next (JSDate.YearFromDay (JSDate.Day t))) as Hn.
  unfold JSDate.Day, JSDate.msPerDay in *.
  pose proof (Z.div_mod t 86400000 ltac:(lia)).
  pose proof (Z.mod_pos_bound t 86400000 ltac:(lia)).
  lia.
Qed.

(** Outside the two-digit years, [diff] in [getWeekNumber] is the time
    elapsed since 1 January of the current year. *)
Lemma getWeekNumber_diff e :
  ~ 0 <= JSDate.getFullYear (LocalTZA e) (now e) <= 99 ->
  now e - JSDate.newDate_y_0_1 (LocalTZA e) (JSDate.getFullYear (LocalTZA e) (now e))
  = msSinceJan1 e.
Proof.
  intros Hyear. unfold JSDate.newDate_y_0_1, msSinceJan1, JSDate.getFullYear in *.
  destruct (_ && _) eqn:Hb.
  - apply andb_prop in Hb as [?%Z.leb_le ?%Z.leb_le]. lia.
  - unfold JSDate.UTC, JSDate.LocalTime. lia.
Qed.

Lemma Qceiling_div a b :
  0 < b -> Qceiling (inject_Z a / inject_Z b) = JS.Math_ceil_div a b.
Proof.
  intros Hb. unfold JS.Math_ceil_div.
  destruct b as [| p | p]; try lia.
  unfold Qceiling, Qfloor, Qdiv, Qinv, Qmult, Qopp, inject_Z. cbn [Qnum Qden].
  by rewrite Z.mul_1_r, Pos.mul_1_l.
Qed.

(** C8: for every date (the clock never reads a year from 0 to 99, which
    the [Date] constructor would take for 19xx), the week number is the
    ceiling of the milliseconds elapsed since 1 January of the current
    year over the milliseconds of a week, that is the ceiling of the
    days since 1 January over 7.  Week [w] is the stretch from
    [(w-1)*7] days (excluded) to [w*7] days (included) after local
    midnight of 1 January, so week 1 begins with 1 January and the
    number stays within 0..53; no weekday enters the count. *)
Theorem getWeekNumber_ceil e :
  ~ 0 <= JSDate.getFullYear (LocalTZA e) (now e) <= 99 ->
  let ms := msSinceJan1 e in
  getWeekNumber e = Qceiling (inject_Z ms / inject_Z (7 * 24 * 60 * 60 * 1000))
  /\ getWeekNumber e = Qceiling (inject_Z ms / inject_Z JSDate.msPerDay / inject_Z 7)
  /\ (forall w, getWeekNumber e = w <->
                (w - 1) * 7 * JSDate.msPerDay < ms <= w * 7 * JSDate.msPerDay)
  /\ 0 <= ms < 366 * JSDate.msPerDay
  /\ 0 <= getWeekNumber e <= 53.
Proof.
  intros Hyear ms. pose proof (msSinceJan1_range e) as Hrange. fold ms in Hrange.
  assert (getWeekNumber e = JS.Math_ceil_div ms (7 * 24 * 60 * 60 * 1000)) as Hw
    by (unfold getWeekNumber; cbn zeta; by rewrite getWeekNumber_diff).
  assert (forall w, getWeekNumber e = w <->
                    (w - 1) * 7 * JSDate.msPerDay < ms <= w * 7 * JSDate.msPerDay)
    as Hspec.
  { intros w. rewrite Hw, JSFacts.Math_ceil_div_spec by lia.
    unfold JSDate.msPerDay. lia. }
  split; [| split; [| split; [| split]]].
  - rewrite Qceiling_div by lia. exact Hw.
  - rewrite Hw. unfold JS.Math_ceil_div, JSDate.msPerDay.
    unfold Qceiling, Qfloor, Qdiv, Qinv, Qmult, Qopp, inject_Z. cbn [Qnum Qden].
    rewrite !Z.mul_1_r. reflexivity.
  - exact Hspec.
  - exact Hrange.
  - destruct (Hspec (getWeekNumber e)) as [Hthis _]. specialize (Hthis eq_refl).
    unfold JSDate.msPerDay in *. lia.
Qed.

(** The count restarts with the year, whatever the weekday: Thursday
    31 December 2026 is in week 53 and Friday 1 January 2027 in week 1
    (the ISO calendar has both days in week 53 of 2026). *)
Example getWeekNumber_new_year :
  let thu := {| now := 1798718400000; LocalTZA := 0; innerWidth := 1024 |} in
  let fri := {| now := 1798804800000; LocalTZA := 0; innerWidth := 1024 |} in
  todayKey thu = "Thu Dec 31 2026" /\ getWeekNumber thu = 53
  /\ todayKey fri = "Fri Jan 01 2027" /\ getWeekNumber fri = 1.
Proof. cbn zeta. repeat split; vm_compute; reflexivity. Qed.

End WeekNumber.

(** ** The theorems at work on the example pages *)

Section Examples.

Lemma canShowModal_after_show_witness :
  canShowModal (Scenario.after 60000)
    (showModal (Scenario.after 20000) Scenario.loaded "welcome")
    "welcome" (frequency Scenario.welcome) = false
  /\ forall frequency,
       canShowModal Scenario.desktop Scenario.previewShown "preview" frequency = true.
Proof.
  split.
  - apply (proj1 (canShowModal_after_show (Scenario.after 20000)
                    (Scenario.after 60000) Scenario.loaded "welcome" 0%nat
                    Scenario.welcome ltac:(vm_compute; reflexivity))).
    + reflexivity.
    + change (frequency Scenario.welcome) with "once-per-session". constructor.
    + vm_compute. exact I.
  - apply (proj2 (canShowModal_after_show Scenario.desktop Scenario.desktop
                    Scenario.previewShown "preview" 0%nat
                    (set_shown true (Some (Scenario.t0 + 1000)) Scenario.preview)
                    ltac:(vm_compute; reflexivity))).
    reflexivity.
Defined.

Lemma canShowModal_unknown_frequency_witness :
  canShowModal Scenario.desktop Scenario.dismissed "welcome" "once-per-hour" = true.
Proof.
  apply canShowModal_unknown_frequency.
  repeat (apply not_elem_of_cons; split; [discriminate |]).
  apply not_elem_of_nil.
Defined.

Lemma devMode_close_blocked_forceClose_closes_witness :
  closeModal Scenario.previewShown "preview" = Scenario.previewShown
  /\ isVisible (forceClose Scenario.previewShown "preview") "preview" = false.
Proof.
  assert (exists r c, getConfig Scenario.previewShown "preview" = Some (r, c)
                      /\ devMode c = true /\ isShown c = true)
    as (r & c & Hget & Hdev & Hshown)
    by (eexists _, _; vm_compute; repeat split; reflexivity).
  pose proof (devMode_close_blocked_forceClose_closes
                Scenario.previewShown "preview" r c Hget Hdev Hshown)
    as (Hclose & _ & _ & Hforce & _).
  exact (conj Hclose Hforce).
Defined.

Lemma triggerModal_fires_iff_witness :
  triggerModal (Scenario.after 60000) Scenario.dismissed "welcome"
  = Scenario.dismissed.
Proof.
  apply (proj2 (triggerModal_fires_iff (Scenario.after 60000)
                  Scenario.dismissed "welcome")).
  intros (r & c & Hget & _ & Hcan).
  assert (getConfig Scenario.dismissed "welcome"
          = Some (0%nat, set_shown false (Some (Scenario.t0 + 10000)) Scenario.welcome))
    as Hwelcome by (vm_compute; reflexivity).
  rewrite Hwelcome in Hget. injection Hget as <- <-.
  vm_compute in Hcan. discriminate Hcan.
Defined.

Lemma getWeekNumber_ceil_witness : getWeekNumber Scenario.desktop = 44.
Proof.
  assert (~ 0 <= JSDate.getFullYear (LocalTZA Scenario.desktop)
                   (now Scenario.desktop) <= 99) as Hyear.
  { assert (JSDate.getFullYear (LocalTZA Scenario.desktop) (now Scenario.desktop)
            = 2026) as -> by (vm_compute; reflexivity).
    lia. }
  apply (proj1 (proj2 (proj2 (getWeekNumber_ceil Scenario.desktop Hyear)))).
  assert (msSinceJan1 Scenario.desktop = 26308800000) as ->
    by (vm_compute; reflexivity).
  unfold JSDate.msPerDay. lia.
Defined.

End Examples.

(** * Further properties *)

(** ** Objects behind the ids *)

Section Objects.
Implicit Types (st : State) (e : Env) (c : Config).

(** Reading an id after one object was written in place. *)
Lemma getConfig_update st r c c' modalId :
  heap st !! r = Some c ->
  getConfig (set_heap (<[r := c']> (heap st)) st) modalId
  = match getConfig st modalId with
    | Some (r', c0) => if decide (r' = r) then Some (r, c') else Some (r', c0)
    | None => None
    end.
Proof.
  intros Hr. unfold getConfig. cbn [modals heap set_heap].
  destruct (modals st !! modalId) as [r' |]; [| done].
  destruct (decide (r' = r)) as [-> | Hne].
  - rewrite list_lookup_insert_eq by (eapply lookup_lt_Some, Hr).
    rewrite Hr. by rewrite decide_True.
  - rewrite list_lookup_insert_ne by done.
    destruct (heap st !! r') as [c0 |]; [| done]. by rewrite decide_False.
Qed.

Lemma devModeOf_update st r c c' modalId :
  heap st !! r = Some c -> devMode c' = devMode c ->
  devModeOf (set_heap (<[r := c']> (heap st)) st) modalId = devModeOf st modalId.
Proof.
  intros Hr Hdev. unfold devModeOf. rewrite (getConfig_update _ _ _ _ _ Hr).
  destruct (getConfig st modalId) as [[r' c0] |] eqn:Hget; [| done].
  case_decide as Heq; [| done]. subst r'.
  apply getConfig_Some in Hget as [_ Hc0]. congruence.
Qed.

(** What [closeModal] does when it does anything. *)
Lemma closeModal_cases st modalId :
  closeModal st modalId = st
  \/ exists r c, getConfig st modalId = Some (r, c) /\ isShown c = true
       /\ devMode c = false
       /\ closeModal st modalId
          = dispatchModalEvent "modal:closed" modalId
              (set_bodyOverflow ""
                 (set_heap (<[r := set_shown false (lastShown c) c]> (heap st)) st)).
Proof.
  unfold closeModal. destruct (getConfig st modalId) as [[r c] |] eqn:Hget; [| by left].
  destruct (isShown c) eqn:Hs; [| by left].
  destruct (devMode c) eqn:Hd; [by left |].
  right. exists r, c. done.
Qed.

Lemma forceClose_cases st modalId :
  forceClose st modalId = st
  \/ exists r c, getConfig st modalId = Some (r, c) /\ isShown c = true
       /\ forceClose st modalId
          = dispatchModalEvent "modal:closed" modalId
              (set_bodyOverflow ""
                 (set_heap (<[r := set_shown false (lastShown c) c]> (heap st)) st)).
Proof.
  unfold forceClose. destruct (getConfig st modalId) as [[r c] |] eqn:Hget; [| by left].
  destruct (isShown c) eqn:Hs; [| by left].
  right. exists r, c. done.
Qed.

Lemma closeModal_stores st modalId :
  session (closeModal st modalId) = session st
  /\ local (closeModal st modalId) = local st
  /\ timers (closeModal st modalId) = timers st.
Proof.
  destruct (closeModal_cases st modalId) as [-> | (r & c & _ & _ & _ & ->)]; done.
Qed.

Lemma forceClose_stores st modalId :
  session (forceClose st modalId) = session st
  /\ local (forceClose st modalId) = local st
  /\ timers (forceClose st modalId) = timers st.
Proof.
  destruct (forceClose_cases st modalId) as [-> | (r & c & _ & _ & ->)]; done.
Qed.

Lemma devModeOf_closeModal st modalId id' :
  devModeOf (closeModal st modalId) id' = devModeOf st id'.
Proof.
  destruct (closeModal_cases st modalId) as [-> | (r & c & Hget & _ & _ & ->)]; [done |].
  apply getConfig_Some in Hget as [_ Hr].
  by apply (devModeOf_update st r c).
Qed.

Lemma devModeOf_forceClose st modalId id' :
  devModeOf (forceClose st modalId) id' = devModeOf st id'.
Proof.
  destruct (forceClose_cases st modalId) as [-> | (r & c & Hget & _ & ->)]; [done |].
  apply getConfig_Some in Hget as [_ Hr].
  by apply (devModeOf_update st r c).
Qed.

Lemma devModeOf_show_any e st modalId id' :
  devModeOf (showModal e st modalId) id' = devModeOf st id'.
Proof.
  unfold showModal. destruct (getConfig st modalId) as [[r c] |] eqn:Hget; [| done].
  apply getConfig_Some in Hget as [_ Hr].
  unfold devModeOf, dispatchModalEvent, set_bodyOverflow, getConfig. cbn [modals heap].
  destruct (trackModalDisplay_frame e
              (set_heap (<[r:=set_shown true (Some (now e)) c]> (heap st)) st)
              modalId (frequency c)) as (-> & -> & _).
  by apply (devModeOf_update st r c).
Qed.

End Objects.

(** ** Storage keys of different modals *)

Section Keys.

Lemma string_length_app (a s : string) :
  String.length (a +:+ s) = (String.length a + String.length s)%nat.
Proof.
  induction a as [| ch a IH]; [done |].
  change (S (String.length (a +:+ s)) = S (String.length a + String.length s)).
  by rewrite IH.
Qed.

Lemma string_app_inj_r (a b s : string) : a +:+ s = b +:+ s -> a = b.
Proof.
  revert b. induction a as [| ch a IH]; intros [| ch' b] Heq.
  - done.
  - apply (f_equal String.length) in Heq. rewrite !string_length_app in Heq.
    cbn [String.length] in Heq. lia.
  - apply (f_equal String.length) in Heq. rewrite !string_length_app in Heq.
    cbn [String.length] in Heq. lia.
  - change (String ch (a +:+ s) = String ch' (b +:+ s)) in Heq.
    injection Heq as -> Heq. f_equal. by apply IH.
Qed.

Lemma lastChar_app (a s : string) : s <> "" -> lastChar (a +:+ s) = lastChar s.
Proof.
  intros Hs. induction a as [| ch a IH]; [done |].
  change (lastChar (String ch (a +:+ s)) = lastChar s).
  cbn [lastChar]. destruct (a +:+ s) eqn:Has; [| exact IH].
  apply (f_equal String.length) in Has. rewrite string_length_app in Has.
  destruct s; [done | cbn [String.length] in Has; lia].
Qed.

(** The record keys of two different ids are different. *)
Lemma key_inj (a b suffix : string) :
  a <> b -> (storage_prefix +:+ a) +:+ suffix <> (storage_prefix +:+ b) +:+ suffix.
Proof.
  intros Hne Heq. apply string_app_inj_r in Heq. by apply (inj (String.app storage_prefix)) in Heq.
Qed.

(** A day record and a week record never share a key. *)
Lemma key_day_week (a b : string) :
  (storage_prefix +:+ a) +:+ "_day" <> (storage_prefix +:+ b) +:+ "_week".
Proof.
  intros Heq. apply (f_equal lastChar) in Heq.
  rewrite !lastChar_app in Heq by done. discriminate.
Qed.

End Keys.

(** ** Commands on one modal *)

Section Commands.
Implicit Types (st : State) (e : Env) (c : Config).


(** X2: outside dev mode [forceClose] and [closeModal] are the same
    function of the state. *)
Theorem forceClose_eq_closeModal st modalId :
  devModeOf st modalId = false -> forceClose st modalId = closeModal st modalId.
Proof.
  unfold devModeOf, forceClose, closeModal.
  destruct (getConfig st modalId) as [[r c] |]; [| done].
  intros ->. done.
Qed.

Lemma canShowModal_closeModal e st modalId id' frequency :
  canShowModal e (closeModal st modalId) id' frequency = canShowModal e st id' frequency.
Proof.
  apply canShowModal_ext.
  - apply devModeOf_closeModal.
  - by rewrite (proj1 (closeModal_stores st modalId)).
  - by rewrite (proj1 (proj2 (closeModal_stores st modalId))).
  - by rewrite (proj1 (proj2 (closeModal_stores st modalId))).
Qed.

Lemma canShowModal_forceClose e st modalId id' frequency :
  canShowModal e (forceClose st modalId) id' frequency = canShowModal e st id' frequency.
Proof.
  apply canShowModal_ext.
  - apply devModeOf_forceClose.
  - by rewrite (proj1 (forceClose_stores st modalId)).
  - by rewrite (proj1 (proj2 (forceClose_stores st modalId))).
  - by rewrite (proj1 (proj2 (forceClose_stores st modalId))).
Qed.

(** X3: closing a modal, by [closeModal] or by [forceClose], leaves the
    result of [canShowModal] as it was, for every id and frequency: a
    close never resets or writes frequency history. *)
Theorem close_keeps_gating e st modalId id' frequency :
  canShowModal e (closeModal st modalId) id' frequency = canShowModal e st id' frequency
  /\ canShowModal e (forceClose st modalId) id' frequency
     = canShowModal e st id' frequency.
Proof. split; [apply canShowModal_closeModal | apply canShowModal_forceClose]. Qed.

Lemma closeModal_config st modalId r c :
  getConfig st modalId = Some (r, c) -> isShown c = true -> devMode c = false ->
  getConfig (closeModal st modalId) modalId = Some (r, set_shown false (lastShown c) c).
Proof.
  intros Hget Hs Hd. unfold closeModal. rewrite Hget, Hs, Hd. cbn [negb].
  unfold dispatchModalEvent, set_bodyOverflow, getConfig. cbn [modals heap].
  fold (getConfig (set_heap (<[r:=set_shown false (lastShown c) c]> (heap st)) st) modalId).
  eapply getConfig_set_heap, Hget.
Qed.

(** A record of the current window blocks the frequency switch. *)
Lemma frequencyAllows_blocked e st modalId kind :
  let key := storage_prefix +:+ modalId in
  (kind = "once-per-session" ->
   JS.truthy (Storage.getItem (session st) (key +:+ "_session")) = true) ->
  (kind = "once-per-day" ->
   Storage.getItem (local st) (key +:+ "_day") = Some (todayKey e)) ->
  (kind = "once-per-week" ->
   JS.parseIntOr0 (Storage.getItem (local st) (key +:+ "_week")) = getWeekNumber e) ->
  kind ∈ ["once-per-session"; "once-per-day"; "once-per-week"] ->
  frequencyAllows e st modalId kind = false.
Proof.
  cbn zeta. intros Hs Hd Hw Hkind.
  rewrite !elem_of_cons, elem_of_nil in Hkind.
  destruct Hkind as [-> | [-> | [-> | []]]].
  - rewrite frequencyAllows_session, Hs; done.
  - rewrite frequencyAllows_day, Hd by done. by rewrite bool_decide_true.
  - rewrite frequencyAllows_week, Hw by done. by rewrite Z.eqb_refl.
Qed.

(** After a show outside dev mode the own kind of the modal is blocked
    for the rest of the window. *)
Lemma frequencyAllows_shown e e' st modalId r c :
  getConfig st modalId = Some (r, c) -> devMode c = false ->
  frequency c ∈ ["once-per-session"; "once-per-day"; "once-per-week"] ->
  sameScopeWindow (frequency c) e e' ->
  frequencyAllows e' (showModal e st modalId) modalId (frequency c) = false.
Proof.
  intros Hget Hdev Hkind Hwin.
  destruct (showModal_records e st modalId r c Hget Hdev) as [Hs Hl].
  unfold sameScopeWindow in Hwin.
  apply frequencyAllows_blocked; [| | | exact Hkind]; intros Hk;
    rewrite Hk in Hs, Hl, Hwin; repeat (case_decide; try congruence).
  - by rewrite Hs, StorageFacts.getItem_setItem_eq, JSFacts.numberToString_truthy.
  - by rewrite Hl, StorageFacts.getItem_setItem_eq, (todayKey_localDay _ _ Hwin).
  - by rewrite Hl, StorageFacts.getItem_setItem_eq,
      JSFacts.parseIntOr0_numberToString, Hwin.
Qed.

(** X4: a modal of kind once-per-session, once-per-day or once-per-week
    that is not in dev mode, once shown and closed again, is hidden and
    is not shown by any later trigger firing in the same scope window:
    [triggerModal] returns the state unchanged. *)
Theorem trigger_blocked_after_close e e' st modalId r c :
  getConfig st modalId = Some (r, c) -> devMode c = false ->
  frequency c ∈ ["once-per-session"; "once-per-day"; "once-per-week"] ->
  sameScopeWindow (frequency c) e e' ->
  let st1 := closeModal (showModal e st modalId) modalId in
  isVisible st1 modalId = false /\ triggerModal e' st1 modalId = st1.
Proof.
  intros Hget Hdev Hkind Hwin st1.
  pose proof (showModal_config e st modalId r c Hget) as Hshown.
  pose proof (closeModal_config _ _ _ _ Hshown eq_refl
                ltac:(by destruct c)) as Hclosed.
  fold st1 in Hclosed. cbn [lastShown set_shown] in Hclosed.
  split; [unfold isVisible; by rewrite Hclosed |].
  unfold triggerModal. rewrite Hclosed. cbn [isShown set_shown frequency].
  unfold st1. rewrite canShowModal_closeModal.
  rewrite (canShowModal_noDev _ _ _ _ _ _ Hshown) by (by destruct c).
  by rewrite (frequencyAllows_shown e e' st modalId r c).
Qed.

Lemma trigger_blocked_after_close_witness :
  triggerModal (Scenario.after 60000) Scenario.dismissed "welcome" = Scenario.dismissed.
Proof.
  apply (proj2 (trigger_blocked_after_close (Scenario.after 10000)
                  (Scenario.after 60000)
                  (set_timers [] Scenario.loaded) "welcome" 0%nat Scenario.welcome
                  ltac:(vm_compute; reflexivity) eq_refl
                  ltac:(change (frequency Scenario.welcome) with "once-per-session";
                        constructor)
                  ltac:(vm_compute; exact I))).
Defined.

End Commands.

(** ** Showing by hand and by trigger *)

Section Showing.
Implicit Types (st : State) (e : Env) (c : Config).

Lemma showModal_bodyOverflow e st modalId r c :
  getConfig st modalId = Some (r, c) -> bodyOverflow (showModal e st modalId) = "hidden".
Proof. intros Hget. unfold showModal. by rewrite Hget. Qed.

(** X5: [show] on a registered id consults neither the device check nor
    the frequency records nor the present visibility: whatever they say,
    the modal is visible afterwards with [lastShown] set to the current
    time, the page scroll is locked and one [modal:shown] event is
    emitted. *)
Theorem show_ignores_gating e st modalId r c :
  getConfig st modalId = Some (r, c) ->
  isVisible (show e st modalId) modalId = true
  /\ (lastShown ∘ snd <$> getConfig (show e st modalId) modalId) = Some (Some (now e))
  /\ bodyOverflow (show e st modalId) = "hidden"
  /\ events (show e st modalId) = (events st ++ [("modal:shown", modalId)])%list.
Proof.
  intros Hget. unfold show. split; [by eapply showModal_visible |].
  split; [by rewrite (showModal_config _ _ _ _ _ Hget) |].
  split; [by eapply showModal_bodyOverflow | by eapply showModal_events].
Qed.

Lemma show_ignores_gating_witness :
  canShowModal (Scenario.after 60000) Scenario.dismissed "welcome" "once-per-session"
  = false
  /\ isVisible (show (Scenario.after 60000) Scenario.dismissed "welcome") "welcome"
     = true.
Proof.
  split; [vm_compute; reflexivity |].
  apply (proj1 (show_ignores_gating (Scenario.after 60000) Scenario.dismissed
                  "welcome" 0%nat
                  (set_shown false (Some (Scenario.t0 + 10000)) Scenario.welcome)
                  ltac:(vm_compute; reflexivity))).
Defined.

(** Where a show leaves the stores alone. *)
Lemma showModal_stores_kept e st modalId :
  (forall r c, getConfig st modalId = Some (r, c) ->
     devMode c = true
     \/ frequency c ∉ ["once-per-session"; "once-per-day"; "once-per-week"]) ->
  session (showModal e st modalId) = session st
  /\ local (showModal e st modalId) = local st.
Proof.
  intros Hquiet. unfold showModal.
  destruct (getConfig st modalId) as [[r c] |] eqn:Hget; [| done].
  cbn [dispatchModalEvent set_bodyOverflow session local]. unfold trackModalDisplay.
  rewrite (getConfig_set_heap _ _ _ _ (set_shown true (Some (now e)) c) Hget).
  destruct (Hquiet r c eq_refl) as [Hdev | Hkind].
  - destruct c; cbn in Hdev; subst; done.
  - rewrite !not_elem_of_cons in Hkind. destruct Hkind as (? & ? & ? & _).
    destruct c as [? ? ? ? ? ? ? ? [] ? ?]; cbn [set_shown frequency] in *;
      repeat case_decide; done.
Qed.

(** X6: a show writes a frequency record only for a modal outside dev
    mode whose frequency is once-per-session, once-per-day or
    once-per-week.  In dev mode, and for the frequency [always] or any
    other string, a show leaves the session store and the local store
    exactly as they were. *)
Theorem show_writes_no_record e st modalId r c :
  getConfig st modalId = Some (r, c) ->
  devMode c = true
  \/ frequency c ∉ ["once-per-session"; "once-per-day"; "once-per-week"] ->
  session (show e st modalId) = session st /\ local (show e st modalId) = local st.
Proof.
  intros Hget Hquiet. apply showModal_stores_kept.
  intros r' c' Hget'. rewrite Hget in Hget'. by injection Hget' as <- <-.
Qed.

Lemma show_writes_no_record_witness :
  session (show (Scenario.after 5000) Scenario.previewShown "preview")
  = session Scenario.previewShown
  /\ local (show (Scenario.after 5000) Scenario.previewShown "preview")
     = local Scenario.previewShown.
Proof.
  apply (show_writes_no_record (Scenario.after 5000) Scenario.previewShown "preview"
           0%nat (set_shown true (Some (Scenario.t0 + 1000)) Scenario.preview)
           ltac:(vm_compute; reflexivity)).
  left. reflexivity.
Defined.

(** The records a show can write are all under the keys of its own id. *)
Lemma showModal_other_records e st a b :
  a <> b ->
  let key := storage_prefix +:+ b in
  Storage.getItem (session (showModal e st a)) (key +:+ "_session")
  = Storage.getItem (session st) (key +:+ "_session")
  /\ Storage.getItem (local (showModal e st a)) (key +:+ "_day")
     = Storage.getItem (local st) (key +:+ "_day")
  /\ Storage.getItem (local (showModal e st a)) (key +:+ "_week")
     = Storage.getItem (local st) (key +:+ "_week").
Proof.
  intros Hne key. destruct (getConfig st a) as [[r c] |] eqn:Hget;
    [| by rewrite showModal_unregistered].
  destruct (devMode c) eqn:Hdev.
  - destruct (showModal_stores_kept e st a) as [-> ->]; [| done].
    intros r' c' Hget'. rewrite Hget in Hget'. injection Hget' as <- <-. by left.
  - destruct (showModal_records e st a r c Hget Hdev) as [-> ->].
    pose proof (key_day_week a b) as Hdw. pose proof (key_day_week b a) as Hwd.
    repeat case_decide;
      rewrite ?StorageFacts.getItem_setItem_ne by (by apply key_inj || done);
      done.
Qed.

(** X7: showing one modal never changes the gating of another: for ids
    [a <> b], [canShowModal] for [b] gives the same answer after
    [show(a)] as before, for every frequency. *)
Theorem show_keeps_other_gating e e' st a b frequency :
  a <> b ->
  canShowModal e' (show e st a) b frequency = canShowModal e' st b frequency.
Proof.
  intros Hne. destruct (showModal_other_records e st a b Hne) as (Hs & Hd & Hw).
  apply canShowModal_ext; [apply devModeOf_show_any | exact Hs | exact Hd | exact Hw].
Qed.

Lemma show_keeps_other_gating_witness :
  canShowModal (Scenario.after 60000)
    (show (Scenario.after 20000) Scenario.loaded "welcome") "promo" "once-per-session"
  = canShowModal (Scenario.after 60000) Scenario.loaded "promo" "once-per-session".
Proof. apply show_keeps_other_gating. discriminate. Defined.

(** X8: the page scroll lock is not counted.  With two modals shown,
    closing one (outside dev mode) leaves the other one visible and sets
    the body overflow back to the empty string. *)
Theorem close_one_of_two_unlocks_scroll st a b ra ca rb cb :
  getConfig st a = Some (ra, ca) -> getConfig st b = Some (rb, cb) ->
  ra <> rb -> isShown ca = true -> devMode ca = false -> isShown cb = true ->
  isVisible (closeModal st a) a = false
  /\ isVisible (closeModal st a) b = true
  /\ bodyOverflow (closeModal st a) = "".
Proof.
  intros Ha Hb Hne Hsa Hda Hsb.
  split; [unfold isVisible; by rewrite (closeModal_config _ _ _ _ Ha Hsa Hda) |].
  unfold closeModal. rewrite Ha, Hsa, Hda. cbn [negb]. split; [| done].
  unfold isVisible, dispatchModalEvent, set_bodyOverflow, getConfig. cbn [modals heap].
  fold (getConfig (set_heap (<[ra:=set_shown false (lastShown ca) ca]> (heap st)) st) b).
  apply getConfig_Some in Ha as [_ Hra].
  rewrite (getConfig_update _ _ _ _ _ Hra), Hb. by rewrite decide_False.
Qed.

Lemma triggerModal_visible e st modalId :
  isVisible st modalId = true -> triggerModal e st modalId = st.
Proof.
  unfold isVisible, triggerModal.
  destruct (getConfig st modalId) as [[r c] |]; [| done]. by intros ->.
Qed.

(** X9: firing the trigger twice at the same instant is the same as
    firing it once. *)
Theorem triggerModal_idempotent e st modalId :
  triggerModal e (triggerModal e st modalId) modalId = triggerModal e st modalId.
Proof.
  destruct (getConfig st modalId) as [[r c] |] eqn:Hget.
  - destruct (isShown c) eqn:Hs.
    + assert (triggerModal e st modalId = st) as ->; [| unfold triggerModal];
        unfold triggerModal; by rewrite Hget, Hs.
    + destruct (canShowModal e st modalId (frequency c)) eqn:Hcan.
      * assert (triggerModal e st modalId = showModal e st modalId) as ->
          by (unfold triggerModal; by rewrite Hget, Hs, Hcan).
        apply triggerModal_visible. by eapply showModal_visible.
      * assert (triggerModal e st modalId = st) as ->; [| unfold triggerModal];
          unfold triggerModal; by rewrite Hget, Hs, Hcan.
  - assert (triggerModal e st modalId = st) as ->; [| unfold triggerModal];
      unfold triggerModal; by rewrite Hget.
Qed.

End Showing.

(** ** More on resetting *)

Section ResetMore.
Implicit Types (st : State) (e : Env) (c : Config).

Lemma devModeOf_resetFrequency st modalId id' :
  devModeOf (resetFrequency st modalId) id' = devModeOf st id'.
Proof. reflexivity. Qed.

(** X10: after [resetFrequency(id)] the gating of the id depends on the
    clock alone: [canShowModal] is true for every frequency, except that
    outside dev mode the kind once-per-week is refused while the week
    number is 0 (a missing record reads as week 0). *)
Theorem resetFrequency_unblocks e st modalId frequency :
  canShowModal e (resetFrequency st modalId) modalId frequency
  = devModeOf st modalId
    || negb (bool_decide (frequency = "once-per-week") && (getWeekNumber e =? 0)).
Proof.
  destruct (resetFrequency_records st modalId) as (Hs & Hd & Hw).
  unfold canShowModal, devModeOf.
  change (getConfig (resetFrequency st modalId) modalId) with (getConfig st modalId).
  rewrite Hs, Hd, Hw.
  destruct (getConfig st modalId) as [[r [? ? ? ? ? ? ? ? [] ? ?]] |];
    cbn [devMode orb JS.truthy JS.parseIntOr0 negb];
    repeat case_decide; subst;
      rewrite ?bool_decide_true, ?bool_decide_false by done;
      cbn [andb negb]; try done.
  all: by rewrite Z.eqb_sym.
Qed.

(** X11: [resetFrequency(a)] leaves the gating of every other id as it
    was, and changes nothing but the two stores: the config objects, the
    id map, the timers, the listeners, the events and the scroll lock
    stay. *)
Theorem resetFrequency_other_modal e st a b frequency :
  a <> b ->
  canShowModal e (resetFrequency st a) b frequency = canShowModal e st b frequency
  /\ heap (resetFrequency st a) = heap st
  /\ modals (resetFrequency st a) = modals st
  /\ timers (resetFrequency st a) = timers st
  /\ listeners (resetFrequency st a) = listeners st
  /\ events (resetFrequency st a) = events st
  /\ bodyOverflow (resetFrequency st a) = bodyOverflow st.
Proof.
  intros Hne. split; [| done].
  apply canShowModal_ext; [done | ..]; unfold resetFrequency;
    cbn [session local set_session set_local].
  - rewrite StorageFacts.getItem_removeItem_ne; [done | by apply key_inj].
  - rewrite !StorageFacts.getItem_removeItem_ne;
      [done | by apply key_inj | apply not_eq_sym, key_day_week].
  - rewrite !StorageFacts.getItem_removeItem_ne;
      [done | apply key_day_week | by apply key_inj].
Qed.

Lemma resetFrequency_other_modal_witness :
  canShowModal (Scenario.after 60000) (resetFrequency Scenario.dismissed "promo")
    "welcome" "once-per-session"
  = canShowModal (Scenario.after 60000) Scenario.dismissed "welcome" "once-per-session".
Proof.
  apply (proj1 (resetFrequency_other_modal (Scenario.after 60000) Scenario.dismissed
                  "promo" "welcome" "once-per-session" ltac:(discriminate))).
Defined.

(** X12: a second [resetFrequency] of the same id changes nothing. *)
Theorem resetFrequency_idempotent st modalId :
  resetFrequency (resetFrequency st modalId) modalId = resetFrequency st modalId.
Proof.
  destruct (resetFrequency_records st modalId) as (Hs & Hd & Hw).
  unfold resetFrequency in *. cbn [session local set_session set_local] in *.
  rewrite (StorageFacts.removeItem_absent _ _ Hs).
  rewrite (StorageFacts.removeItem_absent _ _ Hd).
  rewrite (StorageFacts.removeItem_absent _ _ Hw).
  reflexivity.
Qed.

End ResetMore.

(** ** Switching dev mode at run time *)

Section DevModeSwitch.
Implicit Types (st : State) (e : Env) (c : Config).

Lemma set_heap_same st r c : heap st !! r = Some c -> set_heap (<[r := c]> (heap st)) st = st.
Proof. intros Hr. rewrite list_insert_id by done. by destruct st. Qed.

Lemma enableDevMode_config st modalId r c :
  getConfig st modalId = Some (r, c) ->
  getConfig (enableDevMode st modalId) modalId = Some (r, set_devMode true c).
Proof. intros Hget. unfold enableDevMode. rewrite Hget. eapply getConfig_set_heap, Hget. Qed.

(** X13: after [enableDevMode(id)] on a registered modal the gating
    passes for every frequency, [closeModal] and [hide] are refused, and
    a show writes no frequency record; the switch itself changes neither
    the visibility nor the stores, the timers or the events. *)
Theorem enableDevMode_overrides e st modalId r c frequency :
  getConfig st modalId = Some (r, c) ->
  let st' := enableDevMode st modalId in
  canShowModal e st' modalId frequency = true
  /\ closeModal st' modalId = st'
  /\ hide st' modalId = st'
  /\ session (show e st' modalId) = session st
  /\ local (show e st' modalId) = local st
  /\ isVisible st' modalId = isVisible st modalId
  /\ timers st' = timers st
  /\ events st' = events st.
Proof.
  intros Hget st'. pose proof (enableDevMode_config _ _ _ _ Hget) as Hget'. fold st' in Hget'.
  assert (closeModal st' modalId = st') as Hclose.
  { unfold closeModal. rewrite Hget'. cbn [isShown devMode set_devMode].
    by destruct (isShown c). }
  assert (session st' = session st /\ local st' = local st /\ timers st' = timers st
          /\ events st' = events st) as (Hs & Hl & Ht & Hev)
    by (unfold st', enableDevMode; by rewrite Hget).
  destruct (showModal_stores_kept e st' modalId) as [Hss Hsl].
  { intros r' c' Hc'. rewrite Hget' in Hc'. injection Hc' as <- <-. by left. }
  split; [by eapply canShowModal_devMode |].
  split; [exact Hclose |]. split; [exact Hclose |].
  split; [unfold show; by rewrite Hss |]. split; [unfold show; by rewrite Hsl |].
  split; [unfold isVisible; by rewrite Hget', Hget | done].
Qed.

Lemma enableDevMode_overrides_witness :
  canShowModal (Scenario.after 60000) (enableDevMode Scenario.shown "welcome")
    "welcome" "once-per-session" = true
  /\ closeModal (enableDevMode Scenario.shown "welcome") "welcome"
     = enableDevMode Scenario.shown "welcome".
Proof.
  pose proof (enableDevMode_overrides (Scenario.after 60000) Scenario.shown "welcome"
                0%nat (set_shown true (Some (Scenario.t0 + 10000)) Scenario.welcome)
                "once-per-session" ltac:(vm_compute; reflexivity))
    as (Hcan & Hclose & _).
  exact (conj Hcan Hclose).
Defined.



End DevModeSwitch.

(** ** More on registration *)

Section RegistrationMore.
Implicit Types (st : State) (e : Env) (c : Config).

Lemma setupModalTrigger_frame e st modalId c :
  let st' := setupModalTrigger e st modalId c in
  heap st' = heap st /\ modals st' = modals st /\ session st' = session st
  /\ local st' = local st /\ events st' = events st
  /\ bodyOverflow st' = bodyOverflow st.
Proof.
  cbn zeta.
  unfold setupModalTrigger, setupTimeTrigger, setupScrollTrigger,
    setupClickTrigger, setupExitIntentTrigger, setupPageLoadTrigger.
  repeat case_decide; try done.
  - by destruct (negb _).
  - by destruct (innerWidth e <=? 768).
Qed.

Lemma setupModalEvents_frame e st modalId :
  let st' := setupModalEvents e st modalId in
  heap st' = heap st /\ modals st' = modals st /\ session st' = session st
  /\ local st' = local st /\ events st' = events st
  /\ bodyOverflow st' = bodyOverflow st /\ listeners st' = listeners st.
Proof.
  cbn zeta. unfold setupModalEvents.
  destruct (getConfig st modalId) as [[r c] |]; [| done]. by destruct (_ && _).
Qed.

(** A trigger setup arms at most one timer, for the trigger of its id. *)
Lemma setupModalTrigger_timers e st modalId c :
  timers (setupModalTrigger e st modalId c) = timers st
  \/ exists due, timers (setupModalTrigger e st modalId c)
                 = (timers st ++ [(due, TaskTrigger modalId)])%list.
Proof.
  unfold setupModalTrigger, setupTimeTrigger, setupScrollTrigger,
    setupClickTrigger, setupExitIntentTrigger, setupPageLoadTrigger.
  repeat case_decide; try (by left); try (right; eexists; reflexivity).
  - left. by destruct (negb _).
  - left. by destruct (innerWidth e <=? 768).
Qed.

(** The state a successful registration passes to the two setups. *)
Lemma registerModal_unfold e st modalId c :
  registerModal e st modalId c = st
  \/ registerModal e st modalId c
     = setupModalEvents e
         (setupModalTrigger e
            (set_modals (<[modalId := length (heap st)]> (modals st))
               (set_heap (heap st ++ [c]) st)) modalId c) modalId.
Proof.
  unfold registerModal. destruct (negb (isDeviceCompatible e c)); [by left |].
  destruct (negb (canShowModal e st modalId (frequency c))); [by left | by right].
Qed.

(** X15: a registration, successful or not, writes no frequency record,
    emits no event and leaves the scroll lock alone; the config objects
    already in the heap and the map entries of the other ids stay as they
    are. *)
Theorem registerModal_frame e st modalId c :
  let st' := registerModal e st modalId c in
  session st' = session st /\ local st' = local st
  /\ events st' = events st /\ bodyOverflow st' = bodyOverflow st
  /\ (forall r c0, heap st !! r = Some c0 -> heap st' !! r = Some c0)
  /\ (forall id', id' <> modalId -> modals st' !! id' = modals st !! id').
Proof.
  cbn zeta. destruct (registerModal_unfold e st modalId c) as [-> | ->]; [done |].
  destruct (setupModalEvents_frame e
              (setupModalTrigger e
                 (set_modals (<[modalId := length (heap st)]> (modals st))
                    (set_heap (heap st ++ [c]) st)) modalId c) modalId)
    as (-> & -> & -> & -> & -> & -> & _).
  destruct (setupModalTrigger_frame e
              (set_modals (<[modalId := length (heap st)]> (modals st))
                 (set_heap (heap st ++ [c]) st)) modalId c)
    as (-> & -> & -> & -> & -> & ->).
  cbn [set_modals set_heap heap modals session local events bodyOverflow].
  repeat split.
  - intros r c0 Hr. rewrite lookup_app_l; [done | by eapply lookup_lt_Some].
  - intros id' Hne. by rewrite lookup_insert_ne.
Qed.

(** X16: the guard of [setupClickTrigger] against a missing selector is
    never taken for a config built by [parseModalConfig]: a missing or
    empty trigger value has become the string "0" there, so a click
    listener is attached for every parsed config. *)
Theorem parsed_click_always_listens st modalId dataset :
  let config := parseModalConfig dataset in
  triggerValue config <> ""
  /\ (JS.truthy (modalTriggerValue dataset) = false -> triggerValue config = "0")
  /\ setupClickTrigger st modalId config
     = addListener (ClickListener modalId (triggerValue config) (delay config)) st.
Proof.
  cbn zeta. unfold setupClickTrigger, parseModalConfig. cbn [triggerValue delay].
  destruct (modalTriggerValue dataset) as [[| ch v] |]; cbn; repeat split; done.
Qed.

(** X17: a modal whose trigger type is [manual] or any string outside
    the five trigger types, and an exit-intent modal on a viewport of at
    most 768 pixels, is registered without a trigger of its own: the
    registration attaches no listener and sets no timer that fires the
    trigger. *)
Theorem registerModal_without_trigger e st modalId c :
  triggerType c ∉ ["time"; "scroll"; "click"; "exit"; "page-load"]
  \/ (triggerType c = "exit" /\ innerWidth e <= 768) ->
  listeners (registerModal e st modalId c) = listeners st
  /\ (forall due id', (due, TaskTrigger id') ∈ timers (registerModal e st modalId c) ->
                      (due, TaskTrigger id') ∈ timers st).
Proof.
  intros Hquiet.
  assert (forall st0, setupModalTrigger e st0 modalId c = st0) as Hsetup.
  { intros st0. unfold setupModalTrigger, setupExitIntentTrigger.
    destruct Hquiet as [Hnot | [Hexit Hnarrow]].
    - rewrite !not_elem_of_cons in Hnot. destruct Hnot as (? & ? & ? & ? & ? & _).
      by repeat case_decide.
    - rewrite Hexit. repeat case_decide; try done.
      by rewrite (proj2 (Z.leb_le _ _) Hnarrow). }
  destruct (registerModal_unfold e st modalId c) as [-> | ->]; [done |].
  rewrite Hsetup. unfold setupModalEvents.
  destruct (getConfig _ modalId) as [[r c'] |]; [| done].
  destruct (_ && _); [| done].
  cbn [setTimeout set_timers set_modals set_heap listeners timers].
  split; [done |]. intros due id' Hin.
  apply elem_of_app in Hin as [Hin | Hin]; [done |].
  apply list_elem_of_singleton in Hin. discriminate.
Qed.

Lemma registerModal_without_trigger_witness :
  listeners (registerModal Scenario.desktop (initState [] []) "preview" Scenario.preview)
  = [].
Proof.
  apply (proj1 (registerModal_without_trigger Scenario.desktop (initState [] [])
                  "preview" Scenario.preview
                  ltac:(left; change (triggerType Scenario.preview) with "manual";
                        repeat (apply not_elem_of_cons; split; [discriminate |]);
                        apply not_elem_of_nil))).
Defined.

(** X18: the device check is made at registration only.  A modal that
    was registered while the check passed is shown by a later trigger
    firing whenever it is hidden and the frequency gating passes, with no
    condition on the viewport at that time. *)
Theorem trigger_skips_device_check e e' st modalId c :
  isDeviceCompatible e c = true ->
  canShowModal e st modalId (frequency c) = true ->
  isShown c = false ->
  canShowModal e' (registerModal e st modalId c) modalId (frequency c) = true ->
  isVisible (triggerModal e' (registerModal e st modalId c) modalId) modalId = true.
Proof.
  intros Hdev Hcan Hhidden Hcan'.
  pose proof (registerModal_registers e st modalId c Hdev Hcan) as Hget.
  unfold triggerModal. rewrite Hget, Hhidden, Hcan'. cbn [negb].
  by eapply showModal_visible.
Qed.

Lemma trigger_skips_device_check_witness :
  isDeviceCompatible ScenarioMore.phone ScenarioMore.wide = false
  /\ isVisible (triggerModal ScenarioMore.phone
                  (registerModal Scenario.desktop (initState [] []) "wide"
                     ScenarioMore.wide) "wide") "wide" = true.
Proof.
  split; [reflexivity |].
  apply trigger_skips_device_check; vm_compute; reflexivity.
Defined.

Lemma frequencyAllows_stores e st st' modalId frequency :
  session st' = session st -> local st' = local st ->
  frequencyAllows e st' modalId frequency = frequencyAllows e st modalId frequency.
Proof. intros Hs Hl. unfold frequencyAllows. by rewrite Hs, Hl. Qed.

(** X19: the frequency records outlive the page.  After a modal of kind
    once-per-session, once-per-day or once-per-week was shown outside dev
    mode, a page loaded later in the same scope window with the same
    stores does not register a modal of that id and kind at all,
    whatever the rest of its config (dev mode included). *)
Theorem next_page_skips_shown_modal e e' st modalId r c c2 :
  getConfig st modalId = Some (r, c) -> devMode c = false ->
  frequency c ∈ ["once-per-session"; "once-per-day"; "once-per-week"] ->
  sameScopeWindow (frequency c) e e' ->
  frequency c2 = frequency c ->
  let page := initState (session (showModal e st modalId))
                        (local (showModal e st modalId)) in
  registerModal e' page modalId c2 = page.
Proof.
  intros Hget Hdev Hkind Hwin Hsame page. unfold registerModal.
  destruct (negb (isDeviceCompatible e' c2)); [done |].
  rewrite canShowModal_unregistered
    by (unfold page, getConfig; cbn [modals initState]; by rewrite lookup_empty).
  rewrite Hsame.
  rewrite (frequencyAllows_stores e' (showModal e st modalId) page) by done.
  by rewrite (frequencyAllows_shown e e' st modalId r c).
Qed.

Lemma next_page_skips_shown_modal_witness :
  registerModal (Scenario.after 60000)
    (initState (session Scenario.shown) (local Scenario.shown)) "welcome"
    Scenario.welcome
  = initState (session Scenario.shown) (local Scenario.shown).
Proof.
  apply (next_page_skips_shown_modal (Scenario.after 10000) (Scenario.after 60000)
           (set_timers [] Scenario.loaded) "welcome" 0%nat Scenario.welcome
           Scenario.welcome ltac:(vm_compute; reflexivity) eq_refl
           ltac:(change (frequency Scenario.welcome) with "once-per-session";
                 constructor)
           ltac:(vm_compute; exact I) eq_refl).
Defined.

End RegistrationMore.

(** ** The auto-close timer after a page-load trigger *)

Section AutoCloseWorks.
Implicit Types (st : State) (e : Env) (c : Config).


Lemma registerModal_keeps e st modalId c :
  let st' := registerModal e st modalId c in
  session st' = session st /\ local st' = local st
  /\ events st' = events st /\ bodyOverflow st' = bodyOverflow st.
Proof.
  cbn zeta. destruct (registerModal_unfold e st modalId c) as [-> | ->]; [done |].
  destruct (setupModalEvents_frame e
              (setupModalTrigger e
                 (set_modals (<[modalId := length (heap st)]> (modals st))
                    (set_heap (heap st ++ [c]) st)) modalId c) modalId)
    as (_ & _ & -> & -> & -> & -> & _).
  destruct (setupModalTrigger_frame e
              (set_modals (<[modalId := length (heap st)]> (modals st))
                 (set_heap (heap st ++ [c]) st)) modalId c)
    as (_ & _ & -> & -> & -> & ->).
  done.
Qed.


End AutoCloseWorks.

(** ** Dev mode and the auto-close timer *)

Section DevModeTimers.
Implicit Types (st : State) (e : Env) (c : Config).

Lemma disableDevMode_timers st modalId :
  timers (disableDevMode st modalId) = timers st.
Proof. unfold disableDevMode. by destruct (getConfig st modalId) as [[r c] |]. Qed.

(** X21: the auto-close timer is decided once, at registration.  A modal
    registered in dev mode gets none, whatever its [autoCloseAfter], and
    switching dev mode off afterwards arms none either: every auto-close
    timer pending then was pending before the registration. *)
Theorem devMode_registration_no_autoClose e st modalId c :
  devMode c = true ->
  forall due r id',
    (due, TaskAutoClose r id')
    ∈ timers (disableDevMode (registerModal e st modalId c) modalId) ->
    (due, TaskAutoClose r id') ∈ timers st.
Proof.
  intros Hdev due r id'. rewrite disableDevMode_timers.
  destruct (registerModal_unfold e st modalId c) as [-> | ->]; [done |].
  set (st0 := set_modals (<[modalId := length (heap st)]> (modals st))
                (set_heap (heap st ++ [c]) st)).
  assert (getConfig (setupModalTrigger e st0 modalId c) modalId
          = Some (length (heap st), c)) as Hget.
  { rewrite setupModalTrigger_config. unfold st0, getConfig.
    cbn [modals heap set_modals set_heap]. rewrite lookup_insert_eq.
    rewrite list_lookup_middle by done. reflexivity. }
  rewrite (setupModalEvents_devMode _ _ _ _ _ Hget Hdev).
  destruct (setupModalTrigger_timers e st0 modalId c) as [-> | [due' ->]]; [done |].
  intros [Hin | Hin]%elem_of_app; [exact Hin |].
  apply list_elem_of_singleton in Hin. discriminate.
Qed.

Lemma devMode_registration_no_autoClose_witness :
  Forall (fun timer => forall r id', snd timer <> TaskAutoClose r id')
    (timers (disableDevMode
               (registerModal Scenario.desktop (initState [] []) "preview"
                  Scenario.preview) "preview")).
Proof.
  apply Forall_forall. intros [due task] Hin r id' Htask. cbn [snd] in Htask. subst task.
  apply (devMode_registration_no_autoClose Scenario.desktop (initState [] [])
           "preview" Scenario.preview eq_refl) in Hin.
  by apply elem_of_nil in Hin.
Defined.

End DevModeTimers.

(** ** Discovery and start-up *)

Section Discovery.
Implicit Types (st : State) (e : Env) (c : Config).

(** The heap and the map after a registration. *)
Lemma registerModal_heap_modals e st modalId c :
  (heap (registerModal e st modalId c) = heap st
   /\ modals (registerModal e st modalId c) = modals st)
  \/ (heap (registerModal e st modalId c) = (heap st ++ [c])%list
      /\ modals (registerModal e st modalId c)
         = <[modalId := length (heap st)]> (modals st)).
Proof.
  destruct (registerModal_unfold e st modalId c) as [-> | ->]; [by left |].
  right.
  destruct (setupModalEvents_frame e
              (setupModalTrigger e
                 (set_modals (<[modalId := length (heap st)]> (modals st))
                    (set_heap (heap st ++ [c]) st)) modalId c) modalId)
    as (-> & -> & _).
  destruct (setupModalTrigger_frame e
              (set_modals (<[modalId := length (heap st)]> (modals st))
                 (set_heap (heap st ++ [c]) st)) modalId c)
    as (-> & -> & _).
  done.
Qed.

Lemma discoverModal_cases e st modal :
  discoverModal e st modal = st
  \/ exists modalId, elementModalId modal = Some modalId /\ modalId <> ""
       /\ discoverModal e st modal
          = registerModal e st modalId (parseModalConfig (elementDataset modal)).
Proof.
  unfold discoverModal. destruct (elementModalId modal) as [[| ch s] |]; [by left | | by left].
  right. eexists. split; [done |]. split; done.
Qed.

(** X22: a discovery ignores the elements without a [data-modal-id]
    (missing or empty), writes no frequency record and emits no event;
    it adds at most one config object per element, and every id whose
    map entry it changes is the id of one of the elements. *)
Theorem discoverModals_effects e st modalElements :
  let st' := discoverModals e st modalElements in
  discoverModals e st
    (filter (fun modal => JS.truthy (elementModalId modal) = true) modalElements) = st'
  /\ session st' = session st /\ local st' = local st
  /\ events st' = events st /\ bodyOverflow st' = bodyOverflow st
  /\ (length (heap st') <= length (heap st) + length modalElements)%nat
  /\ (forall modalId, modals st' !! modalId <> modals st !! modalId ->
        exists modal, modal ∈ modalElements /\ elementModalId modal = Some modalId).
Proof.
  cbn zeta. revert st. induction modalElements as [| modal rest IH]; intros st.
  - cbn. repeat split; [lia | done].
  - unfold discoverModals in *. cbn [foldl].
    destruct (IH (discoverModal e st modal)) as (Hfilter & Hs & Hl & Hev & Hbody & Hlen & Hids).
    assert (session (discoverModal e st modal) = session st
            /\ local (discoverModal e st modal) = local st
            /\ events (discoverModal e st modal) = events st
            /\ bodyOverflow (discoverModal e st modal) = bodyOverflow st
            /\ (length (heap (discoverModal e st modal)) <= S (length (heap st)))%nat
            /\ (forall modalId, modals (discoverModal e st modal) !! modalId
                                <> modals st !! modalId ->
                                elementModalId modal = Some modalId))
      as (Hs1 & Hl1 & Hev1 & Hbody1 & Hlen1 & Hids1).
    { destruct (discoverModal_cases e st modal) as [-> | (modalId & Hid & _ & ->)].
      - repeat split; try done. lia.
      - destruct (registerModal_keeps e st modalId
                    (parseModalConfig (elementDataset modal))) as (-> & -> & -> & ->).
        destruct (registerModal_heap_modals e st modalId
                    (parseModalConfig (elementDataset modal))) as [[-> ->] | [-> ->]].
        + repeat split; try done. lia.
        + repeat split; try done.
          * rewrite length_app. cbn. lia.
          * intros id' Hne. destruct (decide (id' = modalId)) as [-> | Hne']; [done |].
            by rewrite lookup_insert_ne in Hne. }
    split; [| split; [congruence | split; [congruence | split; [congruence |
             split; [congruence | split]]]]].
    + rewrite filter_cons. case_decide as Htruthy.
      * cbn [foldl]. exact Hfilter.
      * assert (discoverModal e st modal = st) as Hskip.
        { unfold discoverModal.
          destruct (elementModalId modal) as [[| ch s] |]; try done. }
        rewrite Hskip in Hfilter |- *. exact Hfilter.
    + cbn [length]. lia.
    + intros modalId Hne.
      destruct (decide (modals (discoverModal e st modal) !! modalId
                        = modals st !! modalId)) as [Heq | Hne1].
      * destruct (Hids modalId) as (m & Hin & Hm); [congruence |].
        exists m. split; [by right | done].
      * exists modal. split; [by left | by apply Hids1].
Qed.

End Discovery.

(** ** Start-up order and the cleanup *)

Section StartUp.
Implicit Types (st : State) (e : Env) (c : Config) (s : Storage.t).

(** X23: the start-up order decides about a stale record.  On a fresh
    page with one once-per-session element whose session record is still
    stored but is removed by the cleanup, [init] registers the modal when
    the document was still loading (cleanup first, discovery at
    [DOMContentLoaded]) and does not register it when the document was
    ready (discovery first); in both cases the record is gone
    afterwards. *)
Theorem init_order_stale_record e eReady st modal modalId s' :
  modals st = ∅ ->
  elementModalId modal = Some modalId -> modalId <> "" ->
  let config := parseModalConfig (elementDataset modal) in
  let key := (storage_prefix +:+ modalId) +:+ "_session" in
  frequency config = "once-per-session" ->
  isDeviceCompatible e config = true -> isDeviceCompatible eReady config = true ->
  JS.truthy (Storage.getItem (session st) key) = true ->
  cleanupSession e (session st) = Some s' -> Storage.getItem s' key = None ->
  (exists st1, init e true eReady [modal] st = Some st1
     /\ getConfig st1 modalId = Some (length (heap st), config)
     /\ Storage.getItem (session st1) key = None)
  /\ (exists st2, init e false eReady [modal] st = Some st2
        /\ getConfig st2 modalId = None
        /\ Storage.getItem (session st2) key = None).
Proof.
  intros Hfresh Hid Hne config key Hfreq Hcompat HcompatR Hrecord Hclean Hgone.
  assert (forall st0, modals st0 = ∅ -> getConfig st0 modalId = None) as Hnone
    by (intros st0 H0; unfold getConfig; by rewrite H0, lookup_empty).
  assert (forall e0 st0, discoverModals e0 st0 [modal]
                         = registerModal e0 st0 modalId config) as Hdisc.
  { intros e0 st0. unfold discoverModals, discoverModal. cbn [foldl]. rewrite Hid.
    destruct modalId; [done | reflexivity]. }
  split.
  - exists (registerModal eReady (set_session s' st) modalId config).
    unfold init, cleanupOldData. rewrite Hclean.
    cbn -[discoverModals registerModal]. rewrite Hdisc.
    split; [done |]. split.
    + apply (registerModal_registers eReady (set_session s' st)); [exact HcompatR |].
      rewrite canShowModal_unregistered by (by apply Hnone).
      rewrite Hfreq, frequencyAllows_session. cbn [session set_session].
      fold key. by rewrite Hgone.
    + by rewrite (proj1 (registerModal_keeps eReady (set_session s' st) modalId config)).
  - exists (set_session s' st).
    assert (registerModal e st modalId config = st) as Hskip.
    { unfold registerModal. rewrite Hcompat. cbn [negb].
      rewrite canShowModal_unregistered by (by apply Hnone).
      rewrite Hfreq, frequencyAllows_session. fold key. by rewrite Hrecord. }
    unfold init. rewrite Hdisc, Hskip. unfold cleanupOldData. rewrite Hclean.
    cbn -[getConfig]. split; [done |]. split; [by apply Hnone | exact Hgone].
Qed.

Lemma init_order_stale_record_witness :
  let st := initState ScenarioMore.oldWelcome [] in
  let modal := {| elementModalId := Some "welcome";
                  elementDataset := Scenario.welcomeData |} in
  (exists st1, init Scenario.desktop true (Scenario.after 200) [modal] st = Some st1
     /\ getConfig st1 "welcome" = Some (0%nat, Scenario.welcome)
     /\ Storage.getItem (session st1) "modal_welcome_session" = None)
  /\ (exists st2, init Scenario.desktop false (Scenario.after 200) [modal] st = Some st2
        /\ getConfig st2 "welcome" = None
        /\ Storage.getItem (session st2) "modal_welcome_session" = None).
Proof.
  cbn zeta.
  apply (init_order_stale_record Scenario.desktop (Scenario.after 200)
           (initState ScenarioMore.oldWelcome [])
           {| elementModalId := Some "welcome"; elementDataset := Scenario.welcomeData |}
           "welcome" []); try reflexivity.
  discriminate.
Defined.

Lemma cleanupStep_from oneWeekAgo s i k v :
  Storage.getItem (cleanupStep oneWeekAgo s i) k = Some v -> Storage.getItem s k = Some v.
Proof.
  unfold cleanupStep. destruct (Storage.key s i) as [k' |]; [| done].
  destruct (_ && _); [| done].
  destruct (Storage.getItem s k') as [v' |]; [| done].
  destruct (_ && _); [| done].
  destruct (decide (k' = k)) as [-> | Hne].
  - by rewrite StorageFacts.getItem_removeItem_eq.
  - by rewrite StorageFacts.getItem_removeItem_ne.
Qed.

Lemma cleanupLoop_from fuel oneWeekAgo i s s' k v :
  cleanupLoop fuel oneWeekAgo i s = Some s' ->
  Storage.getItem s' k = Some v -> Storage.getItem s k = Some v.
Proof.
  revert i s. induction fuel as [| f IH]; intros i s; cbn [cleanupLoop];
    case_decide; try discriminate; try (intros [= ->]; done).
  intros Hloop Hget. eapply cleanupStep_from, IH; [exact Hloop | exact Hget].
Qed.

Lemma cleanupLoop_length fuel oneWeekAgo i s s' :
  cleanupLoop fuel oneWeekAgo i s = Some s' -> (length s' <= length s)%nat.
Proof.
  revert i s. induction fuel as [| f IH]; intros i s; cbn [cleanupLoop];
    case_decide; try discriminate; try (intros [= ->]; done).
  intros Hloop. apply IH in Hloop.
  pose proof (cleanupStep_length oneWeekAgo s i). lia.
Qed.

(** X24: [cleanupOldData] always finishes, on every session store, and
    is careful in what it removes: it touches nothing but the session
    store, never makes the store longer, keeps every item that is not an
    expired prefixed time stamp with its value, and every item it leaves
    was there before with the same value. *)
Theorem cleanupOldData_spares e st :
  exists st', cleanupOldData e st = Some st'
    /\ local st' = local st /\ heap st' = heap st /\ modals st' = modals st
    /\ timers st' = timers st /\ events st' = events st
    /\ (length (session st') <= length (session st))%nat
    /\ (forall k v, Storage.getItem (session st) k = Some v ->
          isExpired (now e - 7 * 24 * 60 * 60 * 1000) k v = false ->
          Storage.getItem (session st') k = Some v)
    /\ (forall k v, Storage.getItem (session st') k = Some v ->
          Storage.getItem (session st) k = Some v).
Proof.
  destruct (cleanupSession_total e (session st)) as [s' Hs'].
  exists (set_session s' st). unfold cleanupOldData. rewrite Hs'. cbn.
  repeat split.
  - eapply cleanupLoop_length, Hs'.
  - intros k v Hget Hkeep. eapply cleanupLoop_keeps; [exact Hs' | exact Hget | exact Hkeep].
  - intros k v Hget. eapply cleanupLoop_from; [exact Hs' | exact Hget].
Qed.

(** With nothing expired under the key at the index, a round changes nothing. *)
Lemma cleanupStep_fresh oneWeekAgo s i :
  (forall k v, Storage.getItem s k = Some v -> isExpired oneWeekAgo k v = false) ->
  cleanupStep oneWeekAgo s i = s.
Proof.
  intros Hfresh. unfold cleanupStep.
  destruct (Storage.key s i) as [k |]; [| done].
  destruct (JS.truthy (Some k) && JS.startsWith storage_prefix k) eqn:Hpre; [| done].
  destruct (Storage.getItem s k) as [v |] eqn:Hget; [| done].
  specialize (Hfresh k v Hget). unfold isExpired in Hfresh.
  rewrite Hpre in Hfresh. cbn [andb] in Hfresh. by rewrite Hfresh.
Qed.

Lemma cleanupLoop_fresh fuel oneWeekAgo i s :
  (length s - i <= fuel)%nat ->
  (forall k v, Storage.getItem s k = Some v -> isExpired oneWeekAgo k v = false) ->
  cleanupLoop fuel oneWeekAgo i s = Some s.
Proof.
  revert i. induction fuel as [| f IH]; intros i Hfuel Hfresh; cbn [cleanupLoop].
  - by rewrite decide_False by lia.
  - case_decide; [| done]. rewrite cleanupStep_fresh by done. apply IH; [lia | done].
Qed.

(** X25: a session store in which no item is an expired prefixed time
    stamp comes out of the cleanup unchanged, order included. *)
Theorem cleanup_nothing_expired e s :
  (forall k v, Storage.getItem s k = Some v ->
               isExpired (now e - 7 * 24 * 60 * 60 * 1000) k v = false) ->
  cleanupSession e s = Some s.
Proof. intros Hfresh. apply cleanupLoop_fresh; [lia | exact Hfresh]. Qed.

Lemma cleanup_nothing_expired_witness :
  cleanupSession (Scenario.after 60000) (session Scenario.shown)
  = Some (session Scenario.shown).
Proof.
  apply cleanup_nothing_expired. intros k v.
  change (session Scenario.shown) with [("modal_welcome_session", "1793534410000")].
  cbn [Storage.getItem]. case_decide as Hk; [| discriminate].
  intros [= <-]. subst k. vm_compute. reflexivity.
Defined.

End StartUp.

(** ** What every run of the page keeps *)

Section Runs.
Implicit Types (st : State) (e : Env) (c : Config).

Lemma sameStatic_refl c : sameStatic c c.
Proof. by repeat split. Qed.

Lemma sameStatic_trans c1 c2 c3 : sameStatic c1 c2 -> sameStatic c2 c3 -> sameStatic c1 c3.
Proof.
  unfold sameStatic. intros (? & ? & ? & ? & ? & ? & ? & ?) (? & ? & ? & ? & ? & ? & ? & ?).
  repeat split; congruence.
Qed.

Lemma heapStep_same st st' :
  heap st' = heap st -> modals st' = modals st -> heapStep st st'.
Proof.
  intros Hh Hm. unfold heapStep. rewrite Hh, Hm. repeat split; try done.
  intros r c Hr. exists c. split; [done |]. split; [apply sameStatic_refl | done].
Qed.

Lemma heapStep_trans st1 st2 st3 : heapStep st1 st2 -> heapStep st2 st3 -> heapStep st1 st3.
Proof.
  intros (Hm1 & Hl1 & Ho1 & Hp1) (Hm2 & Hl2 & Ho2 & Hp2).
  split; [congruence |]. split; [congruence |]. split.
  - intros r c Hr. destruct (Ho1 r c Hr) as (c' & Hr' & Hs' & Ht').
    destruct (Ho2 r c' Hr') as (c'' & Hr'' & Hs'' & Ht'').
    exists c''. split; [done |]. split; [by eapply sameStatic_trans | auto].
  - intros r Horphan. rewrite Hp2, Hp1; [done | done |].
    unfold orphan in *. by rewrite Hm1.
Qed.

(** A method writes the object of a registered id in place. *)
Lemma heapStep_write st st' modalId r c c' :
  getConfig st modalId = Some (r, c) ->
  heap st' = <[r := c']> (heap st) -> modals st' = modals st ->
  sameStatic c c' -> (stamped c -> stamped c') ->
  heapStep st st'.
Proof.
  intros [Hm Hr]%getConfig_Some Hh Hmod Hstatic Hstamp.
  split; [done |]. split; [by rewrite Hh, length_insert |]. split.
  - intros r0 c0 Hr0. rewrite Hh. destruct (decide (r0 = r)) as [-> | Hne].
    + exists c'. rewrite list_lookup_insert_eq by (by eapply lookup_lt_Some).
      assert (c0 = c) as -> by congruence. done.
    + exists c0. rewrite list_lookup_insert_ne by done.
      split; [done |]. split; [apply sameStatic_refl | done].
  - intros r0 Horphan. rewrite Hh. apply list_lookup_insert_ne.
    intros ->. by apply (Horphan modalId).
Qed.

Lemma sameStatic_set_shown b t c : sameStatic c (set_shown b t c).
Proof. by repeat split. Qed.

Lemma sameStatic_set_devMode b c : sameStatic c (set_devMode b c).
Proof. by repeat split. Qed.

Lemma heapStep_showModal e st modalId : heapStep st (showModal e st modalId).
Proof.
  unfold showModal. destruct (getConfig st modalId) as [[r c] |] eqn:Hget;
    [| by apply heapStep_same].
  destruct (trackModalDisplay_frame e
              (set_heap (<[r:=set_shown true (Some (now e)) c]> (heap st)) st)
              modalId (frequency c)) as (Hh & Hm & _).
  eapply (heapStep_write _ _ _ _ _ (set_shown true (Some (now e)) c) Hget).
  - cbn [dispatchModalEvent set_bodyOverflow heap]. by rewrite Hh.
  - cbn [dispatchModalEvent set_bodyOverflow modals]. by rewrite Hm.
  - apply sameStatic_set_shown.
  - intros _ _. cbn. eauto.
Qed.

Lemma heapStep_closeModal st modalId : heapStep st (closeModal st modalId).
Proof.
  destruct (closeModal_cases st modalId) as [-> | (r & c & Hget & Hs & Hd & ->)];
    [by apply heapStep_same |].
  eapply (heapStep_write _ _ _ _ _ (set_shown false (lastShown c) c) Hget);
    [done | done | apply sameStatic_set_shown |].
  intros _ Hshown. cbn in Hshown. discriminate.
Qed.

Lemma heapStep_forceClose st modalId : heapStep st (forceClose st modalId).
Proof.
  destruct (forceClose_cases st modalId) as [-> | (r & c & Hget & Hs & ->)];
    [by apply heapStep_same |].
  eapply (heapStep_write _ _ _ _ _ (set_shown false (lastShown c) c) Hget);
    [done | done | apply sameStatic_set_shown |].
  intros _ Hshown. cbn in Hshown. discriminate.
Qed.

Lemma heapStep_triggerModal e st modalId : heapStep st (triggerModal e st modalId).
Proof.
  unfold triggerModal. destruct (getConfig st modalId) as [[r c] |];
    [| by apply heapStep_same].
  destruct (isShown c); [by apply heapStep_same |].
  destruct (negb _); [by apply heapStep_same | apply heapStep_showModal].
Qed.

Lemma heapStep_enableDevMode st modalId : heapStep st (enableDevMode st modalId).
Proof.
  unfold enableDevMode. destruct (getConfig st modalId) as [[r c] |] eqn:Hget;
    [| by apply heapStep_same].
  eapply (heapStep_write _ _ _ _ _ (set_devMode true c) Hget);
    [done | done | apply sameStatic_set_devMode | done].
Qed.

Lemma heapStep_disableDevMode st modalId : heapStep st (disableDevMode st modalId).
Proof.
  unfold disableDevMode. destruct (getConfig st modalId) as [[r c] |] eqn:Hget;
    [| by apply heapStep_same].
  eapply (heapStep_write _ _ _ _ _ (set_devMode false c) Hget);
    [done | done | apply sameStatic_set_devMode | done].
Qed.

Lemma heapStep_runTask e st task : heapStep st (runTask e st task).
Proof.
  destruct task as [modalId | r modalId]; cbn [runTask].
  - apply heapStep_triggerModal.
  - destruct (heap st !! r) as [c |]; [| by apply heapStep_same].
    destruct (isShown c); [apply heapStep_closeModal | by apply heapStep_same].
Qed.

Lemma hideAll_cons modalId keys st :
  hideAll (modalId :: keys) st = hideAll keys (closeModal st modalId).
Proof.
  unfold hideAll. cbn [foldl]. f_equal. unfold closeModal.
  destruct (getConfig st modalId) as [[r c] |]; [| done]. by destruct (isShown c).
Qed.

Lemma heapStep_hideAll keys st : heapStep st (hideAll keys st).
Proof.
  revert st. induction keys as [| modalId keys IH]; intros st.
  - by apply heapStep_same.
  - rewrite hideAll_cons. eapply heapStep_trans; [apply heapStep_closeModal | apply IH].
Qed.

Lemma heapStep_runTimers fuel e st : heapStep st (runTimers fuel e st).
Proof.
  revert st. induction fuel as [| f IH]; intros st; cbn [runTimers];
    [by apply heapStep_same |].
  destruct (nextTimer (timers st)) as [[[due task] rest] |]; [| by apply heapStep_same].
  destruct (due <=? now e); [| by apply heapStep_same].
  eapply heapStep_trans; [| apply IH].
  eapply heapStep_trans; [| apply heapStep_runTask]. by apply heapStep_same.
Qed.

(** Every command but a discovery is a step in place. *)
Lemma exec_heapStep e st cmd :
  (forall modalElements, cmd <> CmdDiscover modalElements) -> heapStep st (exec e st cmd).
Proof.
  intros Hcmd. destruct cmd; cbn [exec].
  - by destruct (Hcmd modalElements).
  - apply heapStep_showModal.
  - apply heapStep_closeModal.
  - apply heapStep_hideAll.
  - apply heapStep_forceClose.
  - by apply heapStep_same.
  - apply heapStep_enableDevMode.
  - apply heapStep_disableDevMode.
  - apply heapStep_triggerModal.
  - apply heapStep_runTask.
  - apply heapStep_runTimers.
  - unfold cleanupOldData. destruct (cleanupSession e (session st)); by apply heapStep_same.
Qed.

Lemma heapStep_pageStep st st' : heapStep st st' -> pageStep st st'.
Proof.
  intros (Hm & Hl & Ho & Hp). split; [lia |]. split; [exact Ho |].
  split; [by rewrite Hm |]. intros r _ Horphan. split; [| by apply Hp].
  unfold orphan in *. by rewrite Hm.
Qed.

Lemma pageStep_refl st : pageStep st st.
Proof. apply heapStep_pageStep. by apply heapStep_same. Qed.

Lemma pageStep_trans st1 st2 st3 : pageStep st1 st2 -> pageStep st2 st3 -> pageStep st1 st3.
Proof.
  intros (Hl1 & Ho1 & Hm1 & Hp1) (Hl2 & Ho2 & Hm2 & Hp2).
  split; [lia |]. split; [| split].
  - intros r c Hr. destruct (Ho1 r c Hr) as (c' & Hr' & Hs' & Ht').
    destruct (Ho2 r c' Hr') as (c'' & Hr'' & Hs'' & Ht'').
    exists c''. split; [done |]. split; [by eapply sameStatic_trans | auto].
  - auto.
  - intros r Hlt Horphan. destruct (Hp1 r Hlt Horphan) as [Horphan' Heq'].
    destruct (Hp2 r ltac:(lia) Horphan') as [Horphan'' Heq''].
    split; [done | congruence].
Qed.

Lemma pageStep_registerModal e st modalId c : pageStep st (registerModal e st modalId c).
Proof.
  destruct (registerModal_heap_modals e st modalId c) as [[Hh Hm] | [Hh Hm]].
  - apply heapStep_pageStep. by apply heapStep_same.
  - split; [rewrite Hh, length_app; lia |]. split; [| split].
    + intros r c0 Hr. exists c0. rewrite Hh, lookup_app_l by (by eapply lookup_lt_Some).
      split; [done |]. split; [apply sameStatic_refl | done].
    + intros id' Hreg. rewrite Hm. destruct (decide (id' = modalId)) as [-> | Hne].
      * rewrite lookup_insert_eq. eauto.
      * by rewrite lookup_insert_ne.
    + intros r Hlt Horphan. split; [| by rewrite Hh, lookup_app_l].
      intros id'. rewrite Hm. destruct (decide (id' = modalId)) as [-> | Hne].
      * rewrite lookup_insert_eq. intros [= <-]. lia.
      * rewrite lookup_insert_ne by done. apply Horphan.
Qed.

Lemma pageStep_discoverModals e st modalElements :
  pageStep st (discoverModals e st modalElements).
Proof.
  revert st. induction modalElements as [| modal rest IH]; intros st;
    [apply pageStep_refl |].
  unfold discoverModals in *. cbn [foldl].
  eapply pageStep_trans; [| apply IH].
  destruct (discoverModal_cases e st modal) as [-> | (modalId & _ & _ & ->)];
    [apply pageStep_refl | apply pageStep_registerModal].
Qed.

Lemma pageStep_exec e st cmd : pageStep st (exec e st cmd).
Proof.
  destruct cmd; try (apply heapStep_pageStep, exec_heapStep; discriminate).
  apply pageStep_discoverModals.
Qed.

Lemma pageStep_run trace st : pageStep st (run trace st).
Proof.
  revert st. induction trace as [| [e cmd] trace IH]; intros st; [apply pageStep_refl |].
  unfold run in *. cbn [foldl fst snd].
  eapply pageStep_trans; [apply pageStep_exec | apply IH].
Qed.

Lemma wellFormed_heapStep st st' : wellFormed st -> heapStep st st' -> wellFormed st'.
Proof.
  intros (Hrange & Hinj & Hstamp) (Hm & Hl & Ho & _).
  split; [| split].
  - intros id r. rewrite Hm, Hl. apply Hrange.
  - intros id1 id2 r. rewrite Hm. apply Hinj.
  - intros r c' Hr'.
    assert (r < length (heap st))%nat as Hlt by (rewrite <- Hl; by eapply lookup_lt_Some).
    destruct (lookup_lt_is_Some_2 _ _ Hlt) as [c Hr].
    destruct (Ho r c Hr) as (c'' & Hr'' & _ & Hkeep).
    assert (c'' = c') as -> by congruence. eauto.
Qed.

Lemma wellFormed_registerModal e st modalId c :
  wellFormed st -> stamped c -> wellFormed (registerModal e st modalId c).
Proof.
  intros (Hrange & Hinj & Hstamp) Hc.
  destruct (registerModal_heap_modals e st modalId c) as [[Hh Hm] | [Hh Hm]].
  - apply (wellFormed_heapStep st); [done | by apply heapStep_same].
  - split; [| split].
    + intros id r. rewrite Hm, Hh, length_app. cbn [length].
      destruct (decide (id = modalId)) as [-> | Hne].
      * rewrite lookup_insert_eq. intros [= <-]. lia.
      * rewrite lookup_insert_ne by done. intros Hr%Hrange. lia.
    + intros id1 id2 r. rewrite Hm.
      destruct (decide (id1 = modalId)) as [-> | Hne1],
               (decide (id2 = modalId)) as [-> | Hne2]; [done | | |].
      * rewrite lookup_insert_eq, lookup_insert_ne by done.
        intros [= <-] Hr%Hrange. lia.
      * rewrite lookup_insert_eq, lookup_insert_ne by done.
        intros Hr%Hrange [= <-]. lia.
      * rewrite !lookup_insert_ne by done. apply Hinj.
    + intros r c0. rewrite Hh. intros [Hr | [_ Hr]]%lookup_app_Some; [eauto |].
      apply list_lookup_singleton_Some in Hr as [_ <-]. exact Hc.
Qed.

Lemma wellFormed_discoverModals e st modalElements :
  wellFormed st -> wellFormed (discoverModals e st modalElements).
Proof.
  revert st. induction modalElements as [| modal rest IH]; intros st Hwf; [done |].
  unfold discoverModals in *. cbn [foldl]. apply IH.
  destruct (discoverModal_cases e st modal) as [-> | (modalId & _ & _ & ->)]; [done |].
  apply wellFormed_registerModal; [done |]. intros Hshown. discriminate.
Qed.

Lemma wellFormed_exec e st cmd : wellFormed st -> wellFormed (exec e st cmd).
Proof.
  intros Hwf. destruct cmd;
    try (eapply wellFormed_heapStep; [exact Hwf | apply exec_heapStep; discriminate]).
  by apply wellFormed_discoverModals.
Qed.

Lemma wellFormed_initState sess loc : wellFormed (initState sess loc).
Proof.
  split; [| split].
  - intros id r. cbn. by rewrite lookup_empty.
  - intros id1 id2 r. cbn. by rewrite lookup_empty.
  - intros r c. cbn. by rewrite lookup_nil.
Qed.

Lemma wellFormed_run trace st : wellFormed st -> wellFormed (run trace st).
Proof.
  revert st. induction trace as [| [e cmd] trace IH]; intros st Hwf; [done |].
  unfold run in *. cbn [foldl fst snd]. by apply IH, wellFormed_exec.
Qed.

(** X26: in every state that a run of commands, discoveries, trigger
    firings, callbacks and cleanups reaches from an empty manager, every
    registered id resolves to a config object of the heap, no two ids
    share a config object, and every config object that is shown carries
    the time of its show in [lastShown]. *)
Theorem run_wellFormed sess loc trace : wellFormed (run trace (initState sess loc)).
Proof. apply wellFormed_run, wellFormed_initState. Qed.

(** X27: nothing a run does unregisters an id or replaces the settings
    of a config object: an id that is registered stays registered, and
    an object of the heap stays at its place with the trigger type and
    value, frequency, delay, device flags, outside-click flag and
    auto-close time it was created with. *)
Theorem run_keeps_configs trace st :
  (forall modalId, is_Some (modals st !! modalId) ->
                   is_Some (modals (run trace st) !! modalId))
  /\ (forall r c, heap st !! r = Some c ->
        exists c', heap (run trace st) !! r = Some c' /\ sameStatic c c').
Proof.
  destruct (pageStep_run trace st) as (_ & Ho & Hm & _). split; [exact Hm |].
  intros r c Hr. destruct (Ho r c Hr) as (c' & Hr' & Hs & _). eauto.
Qed.

Lemma run_keeps_configs_witness :
  is_Some (modals (run [(Scenario.after 60000, CmdHideAll ["welcome"]);
                        (Scenario.after 70000, CmdResetFrequency "welcome")]
                     Scenario.shown) !! "welcome").
Proof.
  apply (proj1 (run_keeps_configs _ Scenario.shown)).
  exists 0%nat. vm_compute. reflexivity.
Defined.

(** X28: a second successful registration of an id orphans the config
    object of the first.  From then on no run changes that object, so if
    it was hidden it stays hidden for good, and the callbacks that closed
    over it (the auto-close timer and the Escape handler of the first
    registration) never close anything. *)
Theorem replaced_object_frozen e st modalId c r0 c0 trace :
  wellFormed st ->
  modals st !! modalId = Some r0 -> heap st !! r0 = Some c0 ->
  isDeviceCompatible e c = true ->
  canShowModal e st modalId (frequency c) = true ->
  let st' := run trace (registerModal e st modalId c) in
  heap st' !! r0 = Some c0
  /\ (isShown c0 = false ->
      forall e', runTask e' st' (TaskAutoClose r0 modalId) = st').
Proof.
  intros (Hrange & Hinj & _) Hm Hr0 Hcompat Hcan st'.
  pose proof (registerModal_registers e st modalId c Hcompat Hcan) as Hget.
  destruct (registerModal_heap_modals e st modalId c) as [[Hh Hmod] | [Hh Hmod]].
  { apply getConfig_Some in Hget as [Hnew _]. rewrite Hmod, Hm in Hnew.
    injection Hnew as ->. apply lookup_lt_Some in Hr0. lia. }
  assert (r0 < length (heap st))%nat as Hlt by (by eapply lookup_lt_Some).
  assert (orphan (registerModal e st modalId c) r0) as Horphan.
  { intros id'. rewrite Hmod. destruct (decide (id' = modalId)) as [-> | Hne].
    - rewrite lookup_insert_eq. intros [= <-]. lia.
    - rewrite lookup_insert_ne by done. intros Hr. by apply Hne, (Hinj _ _ r0). }
  destruct (pageStep_run trace (registerModal e st modalId c)) as (_ & _ & _ & Hp).
  destruct (Hp r0) as [_ Hsame]; [rewrite Hh, length_app; lia | exact Horphan |].
  fold st' in Hsame.
  assert (heap st' !! r0 = Some c0) as Hfrozen
    by (rewrite Hsame, Hh, lookup_app_l by done; exact Hr0).
  split; [exact Hfrozen |]. intros Hhidden e'. cbn [runTask].
  by rewrite Hfrozen, Hhidden.
Qed.

Lemma replaced_object_frozen_witness :
  heap (run [(Scenario.after 20000, CmdShow "welcome")]
          (registerModal (Scenario.after 1000) Scenario.loaded "welcome"
             ScenarioMore.banner)) !! 0%nat
  = Some Scenario.welcome.
Proof.
  apply (proj1 (replaced_object_frozen (Scenario.after 1000) Scenario.loaded "welcome"
                  ScenarioMore.banner 0%nat Scenario.welcome
                  [(Scenario.after 20000, CmdShow "welcome")]
                  (wellFormed_run
                     [(Scenario.desktop,
                       CmdDiscover [{| elementModalId := Some "welcome";
                                       elementDataset := Scenario.welcomeData |}])]
                     (initState [] []) (wellFormed_initState [] []))
                  ltac:(vm_compute; reflexivity) ltac:(vm_compute; reflexivity)
                  ltac:(vm_compute; reflexivity) ltac:(vm_compute; reflexivity))).
Defined.

Lemma isVisible_closeModal_before st a b :
  isVisible (closeModal st a) b = true -> isVisible st b = true.
Proof.
  destruct (closeModal_cases st a) as [-> | (r & c & Hget & _ & _ & ->)]; [done |].
  apply getConfig_Some in Hget as [_ Hr]. unfold isVisible.
  unfold dispatchModalEvent, set_bodyOverflow, getConfig. cbn [modals heap].
  fold (getConfig (set_heap (<[r:=set_shown false (lastShown c) c]> (heap st)) st) b).
  fold (getConfig st b). rewrite (getConfig_update _ _ _ _ _ Hr).
  destruct (getConfig st b) as [[r' c'] |]; [| done]. by case_decide.
Qed.

Lemma isVisible_closeModal_devMode st a b :
  devModeOf st b = true -> isVisible (closeModal st a) b = isVisible st b.
Proof.
  intros Hdev.
  destruct (closeModal_cases st a) as [-> | (r & c & Hget & _ & Hd & ->)]; [done |].
  apply getConfig_Some in Hget as [_ Hr]. unfold isVisible, devModeOf in *.
  unfold dispatchModalEvent, set_bodyOverflow, getConfig. cbn [modals heap].
  fold (getConfig (set_heap (<[r:=set_shown false (lastShown c) c]> (heap st)) st) b).
  fold (getConfig st b). rewrite (getConfig_update _ _ _ _ _ Hr).
  destruct (getConfig st b) as [[r' c'] |] eqn:Hb; [| done].
  case_decide as Heq; [| done]. subst r'.
  apply getConfig_Some in Hb as [_ Hr']. congruence.
Qed.

Lemma isVisible_closeModal_self st a :
  devModeOf st a = false -> isVisible (closeModal st a) a = false.
Proof.
  unfold devModeOf. destruct (getConfig st a) as [[r c] |] eqn:Hget.
  - intros Hd. destruct (isShown c) eqn:Hs.
    + unfold isVisible. by rewrite (closeModal_config _ _ _ _ Hget Hs Hd).
    + assert (closeModal st a = st) as -> by (unfold closeModal; by rewrite Hget, Hs).
      unfold isVisible. by rewrite Hget.
  - intros _.
    assert (closeModal st a = st) as -> by (unfold closeModal; by rewrite Hget).
    unfold isVisible. by rewrite Hget.
Qed.

Lemma isVisible_hideAll_before keys st b :
  isVisible (hideAll keys st) b = true -> isVisible st b = true.
Proof.
  revert st. induction keys as [| a keys IH]; intros st; [done |].
  rewrite hideAll_cons. intros H. by eapply isVisible_closeModal_before, IH.
Qed.

(** X29: [hideAll] hides every modal it enumerates that is not in dev
    mode and leaves the visibility of every dev-mode modal as it was;
    no modal becomes visible by it. *)
Theorem hideAll_hides keys st modalId :
  (modalId ∈ keys -> devModeOf st modalId = false ->
   isVisible (hideAll keys st) modalId = false)
  /\ (devModeOf st modalId = true ->
      isVisible (hideAll keys st) modalId = isVisible st modalId)
  /\ (isVisible (hideAll keys st) modalId = true -> isVisible st modalId = true).
Proof.
  split; [| split; [| apply isVisible_hideAll_before]].
  - revert st. induction keys as [| a keys IH]; intros st Hin Hdev.
    + by apply elem_of_nil in Hin.
    + rewrite hideAll_cons. apply elem_of_cons in Hin as [-> | Hin].
      * apply not_true_is_false. intros Hvis%isVisible_hideAll_before.
        by rewrite isVisible_closeModal_self in Hvis.
      * apply IH; [exact Hin | by rewrite devModeOf_closeModal].
  - revert st. induction keys as [| a keys IH]; intros st Hdev; [done |].
    rewrite hideAll_cons, IH by (by rewrite devModeOf_closeModal).
    by apply isVisible_closeModal_devMode.
Qed.

Lemma hideAll_hides_witness :
  isVisible (hideAll ["welcome"; "banner"] Scenario.shown) "welcome" = false.
Proof.
  apply (proj1 (hideAll_hides ["welcome"; "banner"] Scenario.shown "welcome")).
  - constructor.
  - vm_compute. reflexivity.
Defined.

End Runs.

(** ** Further theorems at work on the example pages *)

Section MoreExamples.


Lemma forceClose_eq_closeModal_witness :
  forceClose Scenario.shown "welcome" = closeModal Scenario.shown "welcome".
Proof. apply forceClose_eq_closeModal. vm_compute. reflexivity. Defined.

Lemma close_one_of_two_unlocks_scroll_witness :
  let st := show (Scenario.after 3000)
              (show (Scenario.after 2000)
                 (discoverModals Scenario.desktop (initState [] []) ScenarioMore.page)
                 "welcome") "banner" in
  bodyOverflow st = "hidden"
  /\ isVisible (closeModal st "welcome") "banner" = true
  /\ bodyOverflow (closeModal st "welcome") = "".
Proof.
  cbn zeta. split; [vm_compute; reflexivity |].
  eapply (fun Ha Hb Hne =>
            proj2 (close_one_of_two_unlocks_scroll _ "welcome" "banner"
                     0%nat (set_shown true (Some (Scenario.t0 + 2000)) Scenario.welcome)
                     1%nat (set_shown true (Some (Scenario.t0 + 3000)) ScenarioMore.banner)
                     Ha Hb Hne eq_refl eq_refl eq_refl));
    [vm_compute; reflexivity | vm_compute; reflexivity | discriminate].
Defined.

(** X30: [getStatus] tells what a trigger firing at the same instant
    would do: it reports the modal as registered, not shown and allowed
    to show exactly when [triggerModal] would take it from hidden to
    visible. *)
Theorem getStatus_predicts_trigger e st modalId :
  let status := getStatus e st modalId in
  Status.isRegistered status && negb (Status.isShown status) && Status.canShow status
  = true
  <-> isVisible st modalId = false
      /\ isVisible (triggerModal e st modalId) modalId = true.
Proof.
  cbn zeta. unfold getStatus, triggerModal.
  destruct (getConfig st modalId) as [[r c] |] eqn:Hget; cbn.
  - destruct (isShown c) eqn:Hs; cbn.
    + assert (isVisible st modalId = true) as Hvis
        by (unfold isVisible; by rewrite Hget).
      split; [done | intros [? _]; congruence].
    + assert (isVisible st modalId = false) as Hvis
        by (unfold isVisible; by rewrite Hget).
      destruct (canShowModal e st modalId (frequency c)); cbn.
      * split; [| done]. intros _. split; [done | by eapply showModal_visible].
      * split; [done | intros [_ ?]; congruence].
  - assert (isVisible st modalId = false) as Hvis
      by (unfold isVisible; by rewrite Hget).
    split; [done | intros [_ ?]; congruence].
Qed.

End MoreExamples.
